(** * Cricket Scorecard API: statistics aggregation and derivation

    A shallow embedding of [main.py] and [schemas.py].  Python values are
    modelled as follows:

    - [int] is [Z]; [float] is an IEEE-754 binary64 number ([spec_float] of
      the Standard Library with [prec = 53], [emax = 1024]);
    - [str] is [string];
    - documents of the store are records, the dictionaries a handler
      returns are [json] objects whose keys are listed in the order of the
      source's dict literals;
    - a handler is a computation in the monad [M]: it threads the record
      store together with the log of the store calls made so far, and
      either returns a value or raises an [Exception]. *)

From Stdlib Require Import ZArith List Lia Bool String Ascii.
From Stdlib Require Import Init.Byte Strings.Byte.
From Stdlib Require Import Sorting.Sorted Sorting.Permutation.
From Stdlib Require Import Floats.SpecFloat.
Import ListNotations.

Local Open Scope string_scope.
Local Open Scope Z_scope.

(* ===================================================================== *)
(** ** Python floats *)
(* ===================================================================== *)

Module PyFloat.

Definition prec : Z := 53.
Definition emax : Z := 1024.

Definition float : Type := spec_float.

(** An integer as an exact (not necessarily normalised) operand. *)
Definition exact_int (z : Z) : float :=
  match z with
  | Z0 => S754_zero false
  | Zpos p => S754_finite false p 0
  | Zneg p => S754_finite true p 0
  end.

(** [float(z)]: the double nearest to the integer, ties to even. *)
Definition of_int (z : Z) : float := binary_normalize prec emax z 0 false.

(** [a / b] on two ints: the correctly rounded quotient of the exact
    integers ([b <> 0]; CPython raises [OverflowError] where the quotient
    leaves the range of a double, which 64-bit store integers never do). *)
Definition truediv (a b : Z) : float :=
  SFdiv prec emax (exact_int a) (exact_int b).

(** [x * y] on two floats. *)
Definition mul (x y : float) : float := SFmul prec emax x y.

(** [a / b] rounded to the nearest integer, ties to the even one
    ([0 < b]). *)
Definition div_half_even (a b : Z) : Z :=
  let q := a / b in
  match 2 * (a mod b) ?= b with
  | Lt => q
  | Eq => if Z.even q then q else q + 1
  | Gt => q + 1
  end.

(** The decimal [n / 10^ndigits] as a float: what [strtod] returns for
    the digit string, and what a literal such as [157.14] denotes. *)
Definition decimal (s : bool) (n : positive) (ndigits : nat) : float :=
  SFdiv prec emax (S754_finite s n 0) (exact_int (10 ^ Z.of_nat ndigits)).

(** The magnitude [m * 2^e] scaled by [10^ndigits] and rounded to an
    integer, ties to even: the digits CPython's [dtoa] (mode 3) yields. *)
Definition scaled_digits (m : positive) (e : Z) (ndigits : nat) : Z :=
  let a := Zpos m * 10 ^ Z.of_nat ndigits in
  match e with
  | Zneg p => div_half_even a (2 ^ Zpos p)
  | _ => a * 2 ^ e
  end.

(** [round(x, ndigits)] for [ndigits >= 0]: the exact value of the double
    is rounded to [ndigits] decimal digits, ties to even, and the decimal
    obtained is converted back to the nearest double.  Zeros, infinities
    and NaN are returned unchanged. *)
Definition round (x : float) (ndigits : nat) : float :=
  match x with
  | S754_finite s m e =>
      match scaled_digits m e ndigits with
      | Zpos n => decimal s n ndigits
      | _ => S754_zero s
      end
  | _ => x
  end.

(** The literal [0.0]. *)
Definition zero : float := S754_zero false.

(** The non-negative literal with the decimal digits [n] of which the
    last two are fractional: [hundredths 15714] is [157.14]. *)
Definition hundredths (n : Z) : float :=
  match n with
  | Zpos p => decimal false p 2
  | _ => zero
  end.

End PyFloat.

Abbreviation float := PyFloat.float.

(* ===================================================================== *)
(** ** [bson.ObjectId] *)
(* ===================================================================== *)

(** Modelled from the spec: the [ObjectId] type of the [bson] package, which
    the source imports.  A key is twelve bytes; the constructor accepts a
    string exactly when it consists of 24 hexadecimal digits (either case)
    and raises otherwise; [str] prints the 24 lower-case digits. *)
Inductive ObjectId : Type :=
| OID (b0 b1 b2 b3 b4 b5 b6 b7 b8 b9 b10 b11 : byte).

Definition binary (o : ObjectId) : list byte :=
  let 'OID b0 b1 b2 b3 b4 b5 b6 b7 b8 b9 b10 b11 := o in
  [b0; b1; b2; b3; b4; b5; b6; b7; b8; b9; b10; b11].

Definition hex_value (c : ascii) : option N :=
  let n := N_of_ascii c in
  if ((48 <=? n) && (n <=? 57))%N then Some (n - 48)%N
  else if ((97 <=? n) && (n <=? 102))%N then Some (n - 87)%N
  else if ((65 <=? n) && (n <=? 70))%N then Some (n - 55)%N
  else None.

Definition hex_digit (n : N) : ascii :=
  if (n <? 10)%N then ascii_of_N (48 + n) else ascii_of_N (87 + n).

Fixpoint fromhex (s : string) : option (list byte) :=
  match s with
  | EmptyString => Some []
  | String hi (String lo rest) =>
      match hex_value hi, hex_value lo, fromhex rest with
      | Some h, Some l, Some bs =>
          match Byte.of_N (16 * h + l) with
          | Some b => Some (b :: bs)
          | None => None
          end
      | _, _, _ => None
      end
  | String _ EmptyString => None
  end.

Fixpoint hex (bs : list byte) : string :=
  match bs with
  | [] => EmptyString
  | b :: rest =>
      let n := Byte.to_N b in
      String (hex_digit (n / 16)) (String (hex_digit (n mod 16)) (hex rest))
  end.

(** [ObjectId(id_str)]; [None] stands for the [InvalidId] it raises. *)
Definition ObjectId_of_str (id_str : string) : option ObjectId :=
  if (String.length id_str =? 24)%nat then
    match fromhex id_str with
    | Some [b0; b1; b2; b3; b4; b5; b6; b7; b8; b9; b10; b11] =>
        Some (OID b0 b1 b2 b3 b4 b5 b6 b7 b8 b9 b10 b11)
    | _ => None
    end
  else None.

(** [str(oid)]. *)
Definition ObjectId_str (o : ObjectId) : string := hex (binary o).

Fixpoint bytes_eqb (a b : list byte) : bool :=
  match a, b with
  | [], [] => true
  | x :: a', y :: b' => Byte.eqb x y && bytes_eqb a' b'
  | _, _ => false
  end.

Definition ObjectId_eqb (a b : ObjectId) : bool :=
  bytes_eqb (binary a) (binary b).

(* ===================================================================== *)
(** ** [datetime.datetime] *)
(* ===================================================================== *)

(** A naive datetime, as the store hands dates back. *)
Record datetime : Type := Datetime {
  year : Z; month : Z; day : Z;
  hour : Z; minute : Z; second : Z; microsecond : Z
}.

Definition datetime_fields (d : datetime) : list Z :=
  [year d; month d; day d; hour d; minute d; second d; microsecond d].

Fixpoint lex_compare (a b : list Z) : comparison :=
  match a, b with
  | x :: a', y :: b' =>
      match x ?= y with
      | Eq => lex_compare a' b'
      | c => c
      end
  | [], [] => Eq
  | [], _ :: _ => Lt
  | _ :: _, [] => Gt
  end.

Definition datetime_compare (a b : datetime) : comparison :=
  lex_compare (datetime_fields a) (datetime_fields b).

(** The lowest [width] decimal digits of [n], zero padded. *)
Fixpoint zfill (width : nat) (n : Z) : string :=
  match width with
  | O => EmptyString
  | S w => zfill w (n / 10) ++ String (ascii_of_N (48 + Z.to_N (n mod 10))) EmptyString
  end.

(** [d.strftime("%Y-%m-%d")]. *)
Definition strftime_ymd (d : datetime) : string :=
  zfill 4 (year d) ++ "-" ++ zfill 2 (month d) ++ "-" ++ zfill 2 (day d).

(** [d.isoformat()]. *)
Definition isoformat (d : datetime) : string :=
  strftime_ymd d ++ "T" ++ zfill 2 (hour d) ++ ":" ++ zfill 2 (minute d)
    ++ ":" ++ zfill 2 (second d)
    ++ (if microsecond d =? 0 then EmptyString else "." ++ zfill 6 (microsecond d)).

(* ===================================================================== *)
(** ** [schemas.py] *)
(* ===================================================================== *)

Definition opt_len_le (s : option string) (n : nat) : bool :=
  match s with
  | Some x => (String.length x <=? n)%nat
  | None => true
  end.

(** [class Player(BaseModel)]. *)
Module Player.

Record t : Type := Build {
  name : string;
  role : option string
}.

(** The [Field] constraints: [min_length=1], [max_length=100]. *)
Definition constraints (p : t) : bool :=
  (1 <=? String.length (name p))%nat && (String.length (name p) <=? 100)%nat.

(** Construction of the model from a request body; [None] stands for the
    [ValidationError] pydantic raises. *)
Definition validate (body : t) : option t :=
  if constraints body then Some body else None.

End Player.

(** [class Innings(BaseModel)]. *)
Module Innings.

Record t : Type := Build {
  player_id : string;
  runs : Z;
  balls : Z;
  fours : Z;
  sixes : Z;
  out : bool;
  opposition : option string;
  venue : option string;
  date : option datetime
}.

(** A request body: the fields that have a default may be absent. *)
Record body : Type := Body {
  body_player_id : string;
  body_runs : Z;
  body_balls : Z;
  body_fours : option Z;
  body_sixes : option Z;
  body_out : option bool;
  body_opposition : option string;
  body_venue : option string;
  body_date : option datetime
}.

Definition default {A} (d : A) (o : option A) : A :=
  match o with Some x => x | None => d end.

Definition between (lo hi x : Z) : bool := (lo <=? x) && (x <=? hi).

Definition opt_between (lo hi : Z) (o : option Z) : bool :=
  match o with Some x => between lo hi x | None => true end.

(** The [Field] constraints: [ge=0, le=400] on runs and balls,
    [ge=0, le=200] on fours and sixes, [max_length=100] on opposition
    and venue. *)
Definition constraints (b : body) : bool :=
  between 0 400 (body_runs b) && between 0 400 (body_balls b)
  && opt_between 0 200 (body_fours b) && opt_between 0 200 (body_sixes b)
  && opt_len_le (body_opposition b) 100 && opt_len_le (body_venue b) 100.

(** Construction of the model: constraints are checked and the defaults
    [fours = 0], [sixes = 0], [out = True] filled in; [None] stands for
    the [ValidationError]. *)
Definition validate (b : body) : option t :=
  if constraints b then
    Some {| player_id := body_player_id b;
            runs := body_runs b;
            balls := body_balls b;
            fours := default 0 (body_fours b);
            sixes := default 0 (body_sixes b);
            out := default true (body_out b);
            opposition := body_opposition b;
            venue := body_venue b;
            date := body_date b |}
  else None.

End Innings.

(* ===================================================================== *)
(** ** JSON-like values: the dictionaries handlers return *)
(* ===================================================================== *)

#[local] Unset Elimination Schemes.
Inductive json : Type :=
| JNull
| JBool (b : bool)
| JInt (z : Z)
| JFloat (f : float)
| JStr (s : string)
| JList (l : list json)
| JObj (o : list (string * json)).
#[local] Set Elimination Schemes.

Definition opt_str (s : option string) : json :=
  match s with Some x => JStr x | None => JNull end.

Fixpoint assoc (k : string) (o : list (string * json)) : option json :=
  match o with
  | [] => None
  | (k', v) :: o' => if String.eqb k' k then Some v else assoc k o'
  end.

(** [d.get(k)] on a dictionary; [None] when the key is absent. *)
Definition dict_get (k : string) (d : json) : option json :=
  match d with
  | JObj o => assoc k o
  | _ => None
  end.

(* ===================================================================== *)
(** ** The record store *)
(* ===================================================================== *)

(** Modelled from the spec: the record store behind [database.db] and the
    helpers [create_document] and [get_documents] of [database.py].  It
    holds two collections, [player] and [innings]; a document is the
    validated model together with the key the store generated for it.  The
    operations are find-by-key, find-all, find-by-foreign-key sorted by
    date, the group-by-foreign-key reduction, and creation. *)
Record Document (A : Type) : Type := Doc {
  _id : ObjectId;
  fields : A
}.
Arguments Doc {A} _ _.
Arguments _id {A} _.
Arguments fields {A} _.

Record Database : Type := Db {
  player : list (Document Player.t);
  innings : list (Document Innings.t)
}.

(** [find_one({"_id": oid})]: the first document with that key. *)
Definition find_one {A} (oid : ObjectId) (c : list (Document A))
  : option (Document A) :=
  List.find (fun d => ObjectId_eqb (_id d) oid) c.

(** [{"player_id": pid}]: exact string equality on the stored field. *)
Definition match_player_id (pid : string) (c : list (Document Innings.t))
  : list (Document Innings.t) :=
  List.filter (fun d => String.eqb (Innings.player_id (fields d)) pid) c.

(** The store's order on dates: a missing date sorts before every date. *)
Definition date_compare (a b : option datetime) : comparison :=
  match a, b with
  | None, None => Eq
  | None, Some _ => Lt
  | Some _, None => Gt
  | Some x, Some y => datetime_compare x y
  end.

Definition date_leb (a b : option datetime) : bool :=
  match date_compare a b with Gt => false | _ => true end.

Definition innings_date (d : Document Innings.t) : option datetime :=
  Innings.date (fields d).

Section Sort.
Context {A : Type} (leb : A -> A -> bool).

Fixpoint insert (x : A) (l : list A) : list A :=
  match l with
  | [] => [x]
  | y :: l' => if leb x y then x :: l else y :: insert x l'
  end.

Fixpoint sort (l : list A) : list A :=
  match l with
  | [] => []
  | x :: l' => insert x (sort l')
  end.
End Sort.

Definition date_ascending (a b : Document Innings.t) : bool :=
  date_leb (innings_date a) (innings_date b).

Definition date_descending (a b : Document Innings.t) : bool :=
  date_leb (innings_date b) (innings_date a).

(** [cursor.sort("date", direction)]: [1] ascending, [-1] descending. *)
Definition sort_by_date (direction : Z) (c : list (Document Innings.t))
  : list (Document Innings.t) :=
  if direction <? 0 then sort date_descending c else sort date_ascending c.

(** A document produced by the [$group] stage (its [_id], the grouping
    key, is never read by the handlers). *)
Module Stats.
Record t : Type := Build {
  runs : Z; balls : Z; fours : Z; sixes : Z; innings : Z
}.
End Stats.

Definition sum_of (f : Innings.t -> Z) (c : list (Document Innings.t)) : Z :=
  fold_right (fun d acc => f (fields d) + acc) 0 c.

(** The pipeline [[{"$match": {"player_id": pid}}, {"$group": {...}}]]:
    no document when nothing matches, else the one group of the key. *)
Definition aggregate (pid : string) (c : list (Document Innings.t))
  : list Stats.t :=
  match match_player_id pid c with
  | [] => []
  | m =>
      [ {| Stats.runs := sum_of Innings.runs m;
           Stats.balls := sum_of Innings.balls m;
           Stats.fours := sum_of Innings.fours m;
           Stats.sixes := sum_of Innings.sixes m;
           Stats.innings := Z.of_nat (List.length m) |} ]
  end.

(* ===================================================================== *)
(** ** Handlers as computations over the store *)
(* ===================================================================== *)

Inductive Exception : Type :=
| HTTPException (status_code : Z) (detail : string)
| RequestValidationError.

(** One entry per call made on the store. *)
Inductive StoreCall : Type :=
| FindOne (collection : string) (oid : ObjectId)
| FindAll (collection : string)
| FindSorted (collection : string) (pid : string) (direction : Z)
| Aggregate (collection : string) (pid : string)
| InsertOne (collection : string) (oid : ObjectId).

Record World : Type := Wd {
  db : Database;
  calls : list StoreCall
}.

Definition M (A : Type) : Type := World -> (Exception + A) * World.

Definition ret {A} (a : A) : M A := fun w => (inr a, w).

Definition raise {A} (e : Exception) : M A := fun w => (inl e, w).

Definition bind {A B} (m : M A) (k : A -> M B) : M B :=
  fun w =>
    match m w with
    | (inr a, w') => k a w'
    | (inl e, w') => (inl e, w')
    end.

Notation "x <- m ;; k" := (bind m (fun x => k))
  (at level 61, m at next level, right associativity).

(** A read of the store, logged. *)
Definition query {A} (c : StoreCall) (f : Database -> A) : M A :=
  fun w => (inr (f (db w)), {| db := db w; calls := (calls w ++ [c])%list |}).

(** A write to the store, logged. *)
Definition update (c : StoreCall) (f : Database -> Database) : M unit :=
  fun w => (inr tt, {| db := f (db w); calls := (calls w ++ [c])%list |}).

(** [result = []; for x in l: result.append(body(x))]. *)
Fixpoint for_each {A B} (l : list A) (body : A -> M B) (result : list B)
  : M (list B) :=
  match l with
  | [] => ret result
  | x :: rest =>
      y <- body x ;;
      for_each rest body (result ++ [y])%list
  end.

(** The outcome of a request served on the store [d]. *)
Definition serve {A} (m : M A) (d : Database) : (Exception + A) * World :=
  m {| db := d; calls := [] |}.

Definition result {A} (r : (Exception + A) * World) : Exception + A := fst r.
Definition store_after {A} (r : (Exception + A) * World) : Database := db (snd r).
Definition store_calls {A} (r : (Exception + A) * World) : list StoreCall :=
  calls (snd r).

(** Modelled from the spec: [create_document("player", payload)] of
    [database.py], given the key the store generates; the document is
    appended to the collection and the key's string returned. *)
Definition create_document_player (payload : Player.t) (new_id : ObjectId)
  : M string :=
  _ <- update (InsertOne "player" new_id)
         (fun d => {| player := (player d ++ [Doc new_id payload])%list;
                      innings := innings d |}) ;;
  ret (ObjectId_str new_id).

(** Modelled from the spec: [create_document("innings", data)] of
    [database.py]. *)
Definition create_document_innings (data : Innings.t) (new_id : ObjectId)
  : M string :=
  _ <- update (InsertOne "innings" new_id)
         (fun d => {| player := player d;
                      innings := (innings d ++ [Doc new_id data])%list |}) ;;
  ret (ObjectId_str new_id).

(** Modelled from the spec: [get_documents("player")] of [database.py],
    all documents of the collection in the store's order. *)
Definition get_documents_player : M (list (Document Player.t)) :=
  query (FindAll "player") player.


(* ===================================================================== *)
(** ** [main.py] *)
(* ===================================================================== *)

(** [db["player"].find_one({"_id": obj_id})]. *)
Definition db_player_find_one (obj_id : ObjectId)
  : M (option (Document Player.t)) :=
  query (FindOne "player" obj_id) (fun d => find_one obj_id (player d)).

(** [list(db["innings"].find({"player_id": pid}).sort("date", direction))]. *)
Definition db_innings_find_sorted (pid : string) (direction : Z)
  : M (list (Document Innings.t)) :=
  query (FindSorted "innings" pid direction)
        (fun d => sort_by_date direction (match_player_id pid (innings d))).

(** [db["innings"].aggregate([...])]. *)
Definition db_innings_aggregate (pid : string) : M (list Stats.t) :=
  query (Aggregate "innings" pid) (fun d => aggregate pid (innings d)).

Definition to_object_id (id_str : string) : M ObjectId :=
  match ObjectId_of_str id_str with
  | Some oid => ret oid
  | None => raise (HTTPException 400 "Invalid ID format")
  end.

Definition strike_rate (runs balls : Z) : float :=
  if balls <=? 0 then PyFloat.zero
  else PyFloat.round
         (PyFloat.mul (PyFloat.truediv runs balls) (PyFloat.of_int 100)) 2.

Definition CreatePlayerRequest : Player.t -> option Player.t := Player.validate.

Definition CreateInningsRequest : Innings.body -> option Innings.t :=
  Innings.validate.

(** [next(agg, None) or {"runs": 0, ...}]. *)
Definition first_or_zero (agg : list Stats.t) : Stats.t :=
  match agg with
  | stats :: _ => stats
  | [] => {| Stats.runs := 0; Stats.balls := 0; Stats.fours := 0;
             Stats.sixes := 0; Stats.innings := 0 |}
  end.

(** The six entries [total_runs .. strike_rate] both views compute. *)
Definition career_items (stats : Stats.t) : list (string * json) :=
  let total_runs := Stats.runs stats in
  let total_balls := Stats.balls stats in
  [ ("total_runs", JInt total_runs);
    ("total_balls", JInt total_balls);
    ("total_fours", JInt (Stats.fours stats));
    ("total_sixes", JInt (Stats.sixes stats));
    ("innings_count", JInt (Stats.innings stats));
    ("strike_rate", JFloat (strike_rate total_runs total_balls)) ].

(** [_id], [name] and [role] of a player document. *)
Definition player_items (p : Document Player.t) : list (string * json) :=
  [ ("_id", JStr (ObjectId_str (_id p)));
    ("name", JStr (Player.name (fields p)));
    ("role", opt_str (Player.role (fields p))) ].

Definition create_player (payload : Player.t) (new_id : ObjectId) : M json :=
  player_id <- create_document_player payload new_id ;;
  ret (JObj [ ("_id", JStr player_id);
              ("name", JStr (Player.name payload));
              ("role", opt_str (Player.role payload)) ]).

Definition list_players : M json :=
  players <- get_documents_player ;;
  result <- for_each players
              (fun p =>
                 let pid := ObjectId_str (_id p) in
                 agg <- db_innings_aggregate pid ;;
                 let stats := first_or_zero agg in
                 ret (JObj (player_items p ++ career_items stats)%list))
              [] ;;
  ret (JList result).

(** An innings document with its key printed and its date in ISO form. *)
Definition normalized_items (inn : Document Innings.t) : list (string * json) :=
  let f := fields inn in
  [ ("_id", JStr (ObjectId_str (_id inn)));
    ("player_id", JStr (Innings.player_id f));
    ("runs", JInt (Innings.runs f));
    ("balls", JInt (Innings.balls f));
    ("fours", JInt (Innings.fours f));
    ("sixes", JInt (Innings.sixes f));
    ("out", JBool (Innings.out f));
    ("opposition", opt_str (Innings.opposition f));
    ("venue", opt_str (Innings.venue f));
    ("date", match Innings.date f with
             | Some d => JStr (isoformat d)
             | None => JNull
             end) ].

(** The innings dictionary of the detail view: normalised, with the
    per-innings strike rate added last. *)
Definition detail_innings (inn : Document Innings.t) : json :=
  JObj (normalized_items inn ++
        [ ("strike_rate",
           JFloat (strike_rate (Innings.runs (fields inn))
                               (Innings.balls (fields inn)))) ])%list.

Definition get_player (player_id : string) : M json :=
  obj_id <- to_object_id player_id ;;
  p <- db_player_find_one obj_id ;;
  match p with
  | None => raise (HTTPException 404 "Player not found")
  | Some p =>
      innings <- db_innings_find_sorted player_id (-1) ;;
      let innings := map detail_innings innings in
      agg <- db_innings_aggregate player_id ;;
      let stats := first_or_zero agg in
      ret (JObj (player_items p ++
                 [ ("innings", JList innings);
                   ("career", JObj (career_items stats)) ])%list)
  end.

(** [payload.model_dump()] with the date defaulted to the current time. *)
Definition dated (payload : Innings.t) (now : datetime) : Innings.t :=
  {| Innings.player_id := Innings.player_id payload;
     Innings.runs := Innings.runs payload;
     Innings.balls := Innings.balls payload;
     Innings.fours := Innings.fours payload;
     Innings.sixes := Innings.sixes payload;
     Innings.out := Innings.out payload;
     Innings.opposition := Innings.opposition payload;
     Innings.venue := Innings.venue payload;
     Innings.date := match Innings.date payload with
                     | Some d => Some d
                     | None => Some now
                     end |}.

(** [add_innings], given the current time and the key the store generates. *)
Definition add_innings (payload : Innings.t) (now : datetime)
                       (new_id : ObjectId) : M json :=
  obj_id <- to_object_id (Innings.player_id payload) ;;
  player <- db_player_find_one obj_id ;;
  match player with
  | None => raise (HTTPException 404 "Player not found")
  | Some _ =>
      let data := dated payload now in
      inserted <- create_document_innings data new_id ;;
      ret (JObj [ ("_id", JStr inserted) ])
  end.

(** What [export_player] returns.  A [StreamingResponse] is given by the
    rows handed to [csv.writer], header first; its body is their CSV text. *)
Inductive ExportResponse : Type :=
| JSONResponse (content : json)
| StreamingResponse (rows : list (list json)) (media_type : string)
                    (headers : list (string * string)).

Definition csv_header : list json :=
  map JStr [ "Date"; "Opposition"; "Venue"; "Runs"; "Balls"; "4s"; "6s";
             "Out"; "Strike Rate" ].

Definition csv_row (inn : Document Innings.t) : list json :=
  let f := fields inn in
  let d_str := match Innings.date f with
               | Some d => strftime_ymd d
               | None => EmptyString
               end in
  [ JStr d_str;
    opt_str (Innings.opposition f);
    opt_str (Innings.venue f);
    JInt (Innings.runs f);
    JInt (Innings.balls f);
    JInt (Innings.fours f);
    JInt (Innings.sixes f);
    JStr (if Innings.out f then "Out" else "Not Out");
    JFloat (strike_rate (Innings.runs f) (Innings.balls f)) ].

Definition is_json (format : option string) : bool :=
  match format with
  | Some f => String.eqb f "json"
  | None => false
  end.

Definition export_player (player_id : string) (format : option string)
  : M ExportResponse :=
  obj_id <- to_object_id player_id ;;
  p <- db_player_find_one obj_id ;;
  match p with
  | None => raise (HTTPException 404 "Player not found")
  | Some p =>
      innings <- db_innings_find_sorted player_id 1 ;;
      if is_json format then
        ret (JSONResponse
               (JObj [ ("player", JObj (player_items p));
                       ("innings",
                        JList (map (fun inn => JObj (normalized_items inn))
                                   innings)) ]))
      else
        let filename := Player.name (fields p) ++ "_career.csv" in
        ret (StreamingResponse
               (csv_header :: map csv_row innings)
               "text/csv"
               [ ("Content-Disposition", "attachment; filename=" ++ filename) ])
  end.

(** The routes [POST /players] and [POST /innings]: the framework builds
    the request model from the body and answers a body that fails
    validation itself, without calling the handler. *)
Definition post_players (body : Player.t) (new_id : ObjectId) : M json :=
  match CreatePlayerRequest body with
  | Some payload => create_player payload new_id
  | None => raise RequestValidationError
  end.

Definition post_innings (body : Innings.body) (now : datetime)
                        (new_id : ObjectId) : M json :=
  match CreateInningsRequest body with
  | Some payload => add_innings payload now new_id
  | None => raise RequestValidationError
  end.

(* ===================================================================== *)
(** ** Vocabulary of the specification *)
(* ===================================================================== *)

Definition InvalidIdentifier : Exception := HTTPException 400 "Invalid ID format".
Definition NotFound : Exception := HTTPException 404 "Player not found".

Definition is_hex (c : ascii) : bool :=
  match hex_value c with Some _ => true | None => false end.

(** A well-formed key string: 24 characters, all hexadecimal digits. *)
Definition well_formed_key (s : string) : bool :=
  (String.length s =? 24)%nat && forallb is_hex (list_ascii_of_string s).

(** The innings set of a player key: the stored records whose player
    reference is that string. *)
Definition innings_of (pid : string) (d : Database) : list (Document Innings.t) :=
  match_player_id pid (innings d).

(** Career totals over a list of innings records: sums of the counting
    fields, the number of records, and the strike rate of the totals. *)
Definition career_entries (l : list (Document Innings.t))
  : list (string * json) :=
  let total_runs := sum_of Innings.runs l in
  let total_balls := sum_of Innings.balls l in
  [ ("total_runs", JInt total_runs);
    ("total_balls", JInt total_balls);
    ("total_fours", JInt (sum_of Innings.fours l));
    ("total_sixes", JInt (sum_of Innings.sixes l));
    ("innings_count", JInt (Z.of_nat (List.length l)));
    ("strike_rate", JFloat (strike_rate total_runs total_balls)) ].

Definition career_of (l : list (Document Innings.t)) : json :=
  JObj (career_entries l).

(** The dictionary of the detail view for the player document [p] and the
    innings records [l] in the order they are listed. *)
Definition player_detail (p : Document Player.t)
                         (listed all : list (Document Innings.t)) : json :=
  JObj (player_items p ++
        [ ("innings", JList (map detail_innings listed));
          ("career", career_of all) ])%list.

(** The dictionary of the list view for the player document [p]. *)
Definition player_summary (p : Document Player.t)
                          (all : list (Document Innings.t)) : json :=
  JObj (player_items p ++ career_entries all)%list.

(** The two forms of an export for the player document [p] and the innings
    records [l] in the order they are listed. *)
Definition export_json (p : Document Player.t)
                       (listed : list (Document Innings.t)) : ExportResponse :=
  JSONResponse
    (JObj [ ("player", JObj (player_items p));
            ("innings",
             JList (map (fun inn => JObj (normalized_items inn)) listed)) ]).

Definition export_csv (p : Document Player.t)
                      (listed : list (Document Innings.t)) : ExportResponse :=
  StreamingResponse
    (csv_header :: map csv_row listed)
    "text/csv"
    [ ("Content-Disposition",
       "attachment; filename=" ++ (Player.name (fields p) ++ "_career.csv")) ].

Definition export_of (format : option string) (p : Document Player.t)
                     (listed : list (Document Innings.t)) : ExportResponse :=
  if is_json format then export_json p listed else export_csv p listed.



(** The dates in the innings list of a view, in the order listed. *)
Definition dates_listed (view : json) : list json :=
  match dict_get "innings" view with
  | Some (JList l) =>
      flat_map (fun i => match dict_get "date" i with
                         | Some x => [x]
                         | None => []
                         end) l
  | _ => []
  end.

(** The dates of an export, in the order listed: those of the innings list
    of a JSON export, the first column below the header of a CSV export. *)
Definition dates_exported (r : ExportResponse) : list json :=
  match r with
  | JSONResponse content => dates_listed content
  | StreamingResponse rows _ _ => flat_map (firstn 1) (tl rows)
  end.




(** A body of [POST /innings] with a field outside its declared bounds. *)
Definition innings_out_of_bounds (b : Innings.body) : Prop :=
  Innings.body_runs b < 0 \/ 400 < Innings.body_runs b \/
  Innings.body_balls b < 0 \/ 400 < Innings.body_balls b \/
  (exists n, Innings.body_fours b = Some n /\ (n < 0 \/ 200 < n)) \/
  (exists n, Innings.body_sixes b = Some n /\ (n < 0 \/ 200 < n)) \/
  (exists s, Innings.body_opposition b = Some s /\ (100 < String.length s)%nat) \/
  (exists s, Innings.body_venue b = Some s /\ (100 < String.length s)%nat).



(** The career totals of no innings. *)
Definition zero_career : json :=
  JObj [ ("total_runs", JInt 0);
         ("total_balls", JInt 0);
         ("total_fours", JInt 0);
         ("total_sixes", JInt 0);
         ("innings_count", JInt 0);
         ("strike_rate", JFloat PyFloat.zero) ].



(** The double with sign [s] and the decimal digits [n], two of them
    fractional. *)
Definition signed_hundredths (s : bool) (n : Z) : float :=
  match n with
  | Zpos p => PyFloat.decimal s p 2
  | _ => S754_zero s
  end.

(* ===================================================================== *)
(** ** A sample store *)
(* ===================================================================== *)

Definition ann_id : ObjectId := OID x64 xb7 xf0 xc2 xa1 xd3 xe4 xf5 xa6 xb7 xc8 xd9.
Definition bob_id : ObjectId := OID x64 xb7 xf0 xc2 xa1 xd3 xe4 xf5 xa6 xb7 xc8 xda.
Definition cal_id : ObjectId := OID x64 xb7 xf0 xc2 xa1 xd3 xe4 xf5 xa6 xb7 xc8 xdb.

Definition ann_key : string := "64b7f0c2a1d3e4f5a6b7c8d9".
Definition bob_key : string := "64b7f0c2a1d3e4f5a6b7c8da".
Definition cal_key : string := "64b7f0c2a1d3e4f5a6b7c8db".

(** Ann's key spelled with upper-case digits. *)
Definition ann_key_upper : string := "64B7F0C2A1D3E4F5A6B7C8D9".

(** A well-formed key of no player. *)
Definition dan_key : string := "64b7f0c2a1d3e4f5a6b7c8dc".

Definition ann : Document Player.t :=
  Doc ann_id {| Player.name := "Ann"; Player.role := Some "Batter" |}.
Definition bob : Document Player.t :=
  Doc bob_id {| Player.name := "Bob"; Player.role := Some "All-rounder" |}.
Definition cal : Document Player.t :=
  Doc cal_id {| Player.name := "Cal"; Player.role := None |}.

Definition midnight (y m d : Z) : datetime := Datetime y m d 0 0 0 0.

Definition played (n : byte) (pid : string) (runs balls : Z) (on : datetime)
  : Document Innings.t :=
  Doc (OID x65 x00 x00 x00 x00 x00 x00 x00 x00 x00 x00 n)
      {| Innings.player_id := pid; Innings.runs := runs; Innings.balls := balls;
         Innings.fours := 0; Innings.sixes := 0; Innings.out := true;
         Innings.opposition := None; Innings.venue := None;
         Innings.date := Some on |}.

(** Ann has two innings, Bob three, Cal none. *)
Definition sample_store : Database :=
  {| player := [ ann; bob; cal ];
     innings := [ played x01 ann_key 50 40 (midnight 2023 1 1);
                  played x02 bob_key 12 10 (midnight 2023 1 1);
                  played x03 ann_key 30 20 (midnight 2023 6 1);
                  played x04 bob_key 33 21 (midnight 2023 6 1);
                  played x05 bob_key 7 9 (midnight 2023 3 1) ] |}.

Definition sample_time : datetime := Datetime 2024 2 29 12 30 0 0.
Definition sample_new_id : ObjectId :=
  OID x66 x00 x00 x00 x00 x00 x00 x00 x00 x00 x00 x01.

(* ===================================================================== *)
(** ** The health check *)
(* ===================================================================== *)

(** What [test_database] reads of the module-level handle [db]: its [name]
    attribute when it has one, and what [list_collection_names()] does,
    the names listed or the message of the exception raised. *)
Record Handle : Type := Hd {
  handle_name : option string;
  list_collection_names : string + list string
}.

(** The two environment variables read through [os.getenv]. *)
Record Environ : Type := Env {
  DATABASE_URL : option string;
  DATABASE_NAME : option string
}.

(** Truth value of what [os.getenv] returns: a non-empty string. *)
Definition truthy (v : option string) : bool :=
  match v with
  | Some (String _ _) => true
  | _ => false
  end.

(** [str(e)[:80]]. *)
Definition first_80 (message : string) : string := substring 0 80 message.

(** [test_database]; no step outside the inner [try] raises, so the outer
    handler is never entered. *)
Definition test_database (handle : option Handle) (env : Environ) : json :=
  match handle with
  | None =>
      JObj [ ("backend", JStr "✅ Running");
             ("database", JStr "❌ Not Available");
             ("database_url", JStr "❌ Not Set");
             ("database_name", JStr "❌ Not Set");
             ("connection_status", JStr "Not Connected");
             ("collections", JList []) ]
  | Some h =>
      let database_url :=
        if truthy (DATABASE_URL env) then "✅ Set" else "❌ Not Set" in
      let database_name :=
        match handle_name h with
        | Some n => n
        | None => if truthy (DATABASE_NAME env) then "✅ Set" else "❌ Not Set"
        end in
      match list_collection_names h with
      | inr names =>
          JObj [ ("backend", JStr "✅ Running");
                 ("database", JStr "✅ Connected & Working");
                 ("database_url", JStr database_url);
                 ("database_name", JStr database_name);
                 ("connection_status", JStr "Connected");
                 ("collections", JList (map JStr names)) ]
      | inl message =>
          JObj [ ("backend", JStr "✅ Running");
                 ("database",
                  JStr ("⚠️ Connected but Error: " ++ first_80 message));
                 ("database_url", JStr database_url);
                 ("database_name", JStr database_name);
                 ("connection_status", JStr "Not Connected");
                 ("collections", JList []) ]
      end
  end.

(* ===================================================================== *)
(** ** Requests served in sequence *)
(* ===================================================================== *)

(** The routes that reach the store, with what each takes from outside. *)
Inductive Request : Type :=
| PostPlayers (body : Player.t) (new_id : ObjectId)
| GetPlayers
| GetPlayer (player_id : string)
| PostInnings (body : Innings.body) (now : datetime) (new_id : ObjectId)
| GetExport (player_id : string) (format : option string).

(** The store a request leaves behind. *)
Definition store_after_request (r : Request) (d : Database) : Database :=
  match r with
  | PostPlayers body new_id => store_after (serve (post_players body new_id) d)
  | GetPlayers => store_after (serve list_players d)
  | GetPlayer key => store_after (serve (get_player key) d)
  | PostInnings body now new_id =>
      store_after (serve (post_innings body now new_id) d)
  | GetExport key format => store_after (serve (export_player key format) d)
  end.

(** The store after a sequence of requests, served one after the other. *)
Definition replay (requests : list Request) (d : Database) : Database :=
  fold_left (fun d r => store_after_request r d) requests d.

Definition empty_store : Database := {| player := []; innings := [] |}.

(** The declared bounds, on a stored innings. *)
Definition innings_in_bounds (f : Innings.t) : Prop :=
  0 <= Innings.runs f <= 400 /\ 0 <= Innings.balls f <= 400 /\
  0 <= Innings.fours f <= 200 /\ 0 <= Innings.sixes f <= 200 /\
  opt_len_le (Innings.opposition f) 100 = true /\
  opt_len_le (Innings.venue f) 100 = true.

(** The player reference of an innings parses and finds a player. *)
Definition resolves (d : Database) (f : Innings.t) : Prop :=
  exists oid p,
    ObjectId_of_str (Innings.player_id f) = Some oid /\
    find_one oid (player d) = Some p.

(** What holds of every store the routes build. *)
Definition store_invariant (d : Database) : Prop :=
  (forall p, In p (player d) -> Player.constraints (fields p) = true) /\
  (forall i, In i (innings d) ->
             innings_in_bounds (fields i) /\
             Innings.date (fields i) <> None /\
             resolves d (fields i)).

(** A store call that writes. *)
Definition is_write (c : StoreCall) : bool :=
  match c with
  | InsertOne _ _ => true
  | _ => false
  end.

(** The integer under key [k] of a dictionary ([0] when there is none). *)
Definition int_entry (k : string) (j : json) : Z :=
  match dict_get k j with
  | Some (JInt z) => z
  | _ => 0
  end.

Definition sum_entries (k : string) (l : list json) : Z :=
  fold_right (fun j acc => int_entry k j + acc) 0 l.


(** The store after a successful [add_innings]. *)
Definition with_new_innings (d : Database) (payload : Innings.t)
                            (now : datetime) (new_id : ObjectId) : Database :=
  {| player := player d;
     innings := (innings d ++ [ Doc new_id (dated payload now) ])%list |}.

(** The store after a successful [create_player]. *)
Definition with_new_player (d : Database) (payload : Player.t)
                           (new_id : ObjectId) : Database :=
  {| player := (player d ++ [ Doc new_id payload ])%list;
     innings := innings d |}.

(** The integer under key [k] of the career totals of a detail view. *)
Definition career_entry (k : string) (detail : json) : Z :=
  match dict_get "career" detail with
  | Some career => int_entry k career
  | None => 0
  end.


(** The float under key [k] of a dictionary, when there is one. *)
Definition float_entry (k : string) (j : json) : option float :=
  match dict_get k j with
  | Some (JFloat f) => Some f
  | _ => None
  end.

(** The integer and float cells of a CSV row. *)
Definition int_cell (n : nat) (row : list json) : Z :=
  match nth n row JNull with
  | JInt z => z
  | _ => 0
  end.

Definition float_cell (n : nat) (row : list json) : option float :=
  match nth n row JNull with
  | JFloat f => Some f
  | _ => None
  end.

(** The rows of a CSV export below its header (none for a JSON export). *)
Definition csv_body (r : ExportResponse) : list (list json) :=
  match r with
  | StreamingResponse rows _ _ => tl rows
  | JSONResponse _ => []
  end.


(* ===================================================================== *)
(** ** Rounding to the nearest integer, ties to even *)
(* ===================================================================== *)

Lemma div_half_even_nearest (a b : Z) :
  0 < b ->
  2 * Z.abs (PyFloat.div_half_even a b * b - a) <= b /\
  (2 * Z.abs (PyFloat.div_half_even a b * b - a) = b ->
   Z.even (PyFloat.div_half_even a b) = true).
Proof.
  intros Hb. unfold PyFloat.div_half_even.
  pose proof (Z.div_mod a b ltac:(lia)) as Hdm.
  pose proof (Z.mod_pos_bound a b Hb) as Hr.
  set (q := a / b) in *. set (r := a mod b) in *.
  destruct (Z.compare_spec (2 * r) b) as [He | Hl | Hg].
  - destruct (Z.even q) eqn:Hq.
    + split; [lia | auto].
    + split; [lia | intros _].
      rewrite Z.even_add, Hq. reflexivity.
  - split; [lia | intros Habs; exfalso; lia].
  - split; [lia | intros Habs; exfalso; lia].
Qed.

(* ===================================================================== *)
(** ** Keys: printing and parsing *)
(* ===================================================================== *)

Lemma hex_value_digit (n : N) :
  (n < 16)%N -> hex_value (hex_digit n) = Some n.
Proof.
  intros H. destruct n as [| p]; [reflexivity |].
  do 4 (destruct p as [p | p |]; try reflexivity); exfalso; lia.
Qed.

Lemma fromhex_hex_cons (b : byte) (rest : list byte) :
  fromhex (hex (b :: rest)) =
  match fromhex (hex rest) with
  | Some bs => Some (b :: bs)
  | None => None
  end.
Proof.
  cbn [hex]. cbv zeta.
  pose proof (Strings.Byte.to_N_bounded b) as Hb.
  set (n := Byte.to_N b) in *.
  cbn [fromhex].
  rewrite (hex_value_digit (n / 16)) by (apply N.Div0.div_lt_upper_bound; lia).
  rewrite (hex_value_digit (n mod 16)) by (apply N.mod_lt; lia).
  replace (16 * (n / 16) + n mod 16)%N with n
    by (apply N.div_mod; lia).
  unfold n. rewrite Strings.Byte.of_to_N.
  destruct (fromhex (hex rest)); reflexivity.
Qed.

Lemma fromhex_hex (bs : list byte) : fromhex (hex bs) = Some bs.
Proof.
  induction bs as [| b rest IH].
  - reflexivity.
  - rewrite fromhex_hex_cons, IH. reflexivity.
Qed.

Lemma hex_length (bs : list byte) :
  String.length (hex bs) = (2 * List.length bs)%nat.
Proof.
  induction bs as [| b rest IH]; cbn [hex String.length List.length].
  - reflexivity.
  - rewrite IH. lia.
Qed.

(** Parsing the printed form of a key gives the key back. *)
Lemma ObjectId_of_str_str (o : ObjectId) :
  ObjectId_of_str (ObjectId_str o) = Some o.
Proof.
  unfold ObjectId_of_str, ObjectId_str.
  rewrite hex_length, fromhex_hex.
  destruct o. reflexivity.
Qed.

Lemma bytes_eqb_eq (a b : list byte) : bytes_eqb a b = true <-> a = b.
Proof.
  revert b. induction a as [| x a IH]; intros [| y b]; cbn [bytes_eqb];
    try (split; congruence).
  rewrite andb_true_iff, IH. split.
  - intros [Hxy ->]. apply Byte.byte_dec_bl in Hxy. congruence.
  - intros [= -> ->]. split; [apply Byte.byte_dec_lb|]; reflexivity.
Qed.

Lemma ObjectId_eqb_eq (a b : ObjectId) : ObjectId_eqb a b = true <-> a = b.
Proof.
  unfold ObjectId_eqb. rewrite bytes_eqb_eq.
  destruct a, b; cbn [binary]. split; [intros [=] | intros [=]]; subst; reflexivity.
Qed.

Lemma ObjectId_eqb_refl (a : ObjectId) : ObjectId_eqb a a = true.
Proof. apply ObjectId_eqb_eq. reflexivity. Qed.

(** A key has one printed form: a string that parses to [o] and is itself
    a printed key is the printed form of [o]. *)
Lemma printed_key_unique (s : string) (o o' : ObjectId) :
  ObjectId_of_str s = Some o -> s = ObjectId_str o' -> s = ObjectId_str o.
Proof.
  intros Hs ->. rewrite ObjectId_of_str_str in Hs. congruence.
Qed.

Lemma string_pair_ind (P : string -> Prop) :
  P EmptyString ->
  (forall c, P (String c EmptyString)) ->
  (forall c1 c2 s, P s -> P (String c1 (String c2 s))) ->
  forall s, P s.
Proof.
  intros H0 H1 H2 s.
  assert (H : P s /\ forall c, P (String c s)).
  { induction s as [| c s [IHs IHc]].
    - split; [exact H0 | exact H1].
    - split; [apply IHc | intros c'; apply H2; exact IHs]. }
  exact (proj1 H).
Qed.

Lemma hex_value_bound (c : ascii) (n : N) :
  hex_value c = Some n -> (n < 16)%N.
Proof.
  unfold hex_value.
  repeat match goal with
         | |- context [if ?b then _ else _] => destruct b eqn:?
         end; intros [= <-];
    repeat match goal with
           | H : (_ && _)%bool = true |- _ => apply andb_true_iff in H; destruct H
           | H : (_ <=? _)%N = true |- _ => apply N.leb_le in H
           end; lia.
Qed.

(** A string with a character that is no hexadecimal digit has no bytes. *)
Lemma fromhex_non_hex (s : string) :
  forallb is_hex (list_ascii_of_string s) = false -> fromhex s = None.
Proof.
  induction s as [| c | c1 c2 s IH] using string_pair_ind;
    cbn [list_ascii_of_string forallb fromhex]; intros H.
  - discriminate.
  - reflexivity.
  - unfold is_hex in H at 1 2.
    destruct (hex_value c1); [| reflexivity].
    destruct (hex_value c2); [| reflexivity].
    cbn [andb] in H. rewrite (IH H). reflexivity.
Qed.

(** A string of [2 * n] hexadecimal digits has [n] bytes. *)
Lemma fromhex_all_hex (s : string) :
  forallb is_hex (list_ascii_of_string s) = true ->
  forall n, String.length s = (2 * n)%nat ->
  exists bs, fromhex s = Some bs /\ List.length bs = n.
Proof.
  induction s as [| c | c1 c2 s IH] using string_pair_ind;
    cbn [list_ascii_of_string forallb fromhex String.length]; intros H n Hn.
  - exists []. split; [reflexivity | cbn; lia].
  - exfalso. lia.
  - unfold is_hex in H at 1 2.
    destruct (hex_value c1) as [h |] eqn:Hh; [| discriminate].
    destruct (hex_value c2) as [l |] eqn:Hl; [| discriminate].
    cbn [andb] in H.
    destruct n as [| n]; [exfalso; lia |].
    destruct (IH H n ltac:(lia)) as (bs & -> & Hlen).
    apply hex_value_bound in Hh, Hl.
    destruct (Byte.of_N (16 * h + l)) as [b |] eqn:Hb.
    + exists (b :: bs). split; [reflexivity | cbn; lia].
    + exfalso. apply Strings.Byte.of_N_None_iff in Hb. lia.
Qed.

(** The constructor rejects exactly the strings that are not well formed. *)
Lemma ObjectId_of_str_None (s : string) :
  ObjectId_of_str s = None <-> well_formed_key s = false.
Proof.
  unfold ObjectId_of_str, well_formed_key.
  destruct (String.length s =? 24)%nat eqn:Hlen; cbn [andb].
  - destruct (forallb is_hex (list_ascii_of_string s)) eqn:Hhex.
    + apply Nat.eqb_eq in Hlen.
      destruct (fromhex_all_hex s Hhex 12 Hlen) as (bs & -> & Hbs).
      do 13 (destruct bs as [| ? bs]; try discriminate).
      split; discriminate.
    + rewrite (fromhex_non_hex s Hhex). split; reflexivity.
  - split; reflexivity.
Qed.

Lemma ObjectId_of_str_Some (s : string) :
  well_formed_key s = true <-> exists o, ObjectId_of_str s = Some o.
Proof.
  pose proof (ObjectId_of_str_None s) as [H1 H2].
  split.
  - intros Hw. destruct (ObjectId_of_str s) as [o |]; [eauto |].
    rewrite (H1 eq_refl) in Hw. discriminate.
  - intros [o Ho]. destruct (well_formed_key s); [reflexivity |].
    rewrite (H2 eq_refl) in Ho. discriminate.
Qed.

(* ===================================================================== *)
(** ** The store's sort *)
(* ===================================================================== *)

Section SortFacts.
Context {A : Type} (leb : A -> A -> bool).
Hypothesis leb_total : forall a b, leb a b = true \/ leb b a = true.


Lemma insert_perm (x : A) (l : list A) : Permutation (insert leb x l) (x :: l).
Proof.
  induction l as [| y l IH]; cbn [insert].
  - apply Permutation_refl.
  - destruct (leb x y).
    + apply Permutation_refl.
    + apply perm_trans with (y :: x :: l).
      * apply perm_skip. exact IH.
      * apply perm_swap.
Qed.

Lemma sort_perm (l : list A) : Permutation (sort leb l) l.
Proof.
  induction l as [| x l IH]; cbn [sort].
  - apply perm_nil.
  - apply perm_trans with (x :: sort leb l).
    + apply insert_perm.
    + apply perm_skip. exact IH.
Qed.




End SortFacts.






Lemma sort_by_date_perm (direction : Z) (c : list (Document Innings.t)) :
  Permutation (sort_by_date direction c) c.
Proof.
  unfold sort_by_date. destruct (direction <? 0); apply sort_perm.
Qed.



(* ===================================================================== *)
(** ** Lookups in the store *)
(* ===================================================================== *)

Lemma find_one_Some {A} (oid : ObjectId) (c : list (Document A)) (p : Document A) :
  find_one oid c = Some p -> In p c /\ _id p = oid.
Proof.
  unfold find_one. intros H. apply find_some in H. destruct H as [Hin Heq].
  split; [exact Hin | apply ObjectId_eqb_eq; exact Heq].
Qed.



(** The reduction of the store is the career totals of the matching
    records, also when nothing matches. *)
Lemma career_items_aggregate (pid : string) (c : list (Document Innings.t)) :
  career_items (first_or_zero (aggregate pid c)) =
  career_entries (match_player_id pid c).
Proof.
  unfold aggregate.
  destruct (match_player_id pid c) as [| i m]; reflexivity.
Qed.

(* ===================================================================== *)
(** ** What each handler computes *)
(* ===================================================================== *)

Lemma to_object_id_ok (id_str : string) (oid : ObjectId) (w : World) :
  ObjectId_of_str id_str = Some oid -> to_object_id id_str w = (inr oid, w).
Proof. unfold to_object_id. intros ->. reflexivity. Qed.

Lemma to_object_id_invalid (id_str : string) (w : World) :
  ObjectId_of_str id_str = None ->
  to_object_id id_str w = (inl InvalidIdentifier, w).
Proof. unfold to_object_id. intros ->. reflexivity. Qed.

Lemma get_player_found (d : Database) (key : string) (oid : ObjectId)
      (p : Document Player.t) :
  ObjectId_of_str key = Some oid ->
  find_one oid (player d) = Some p ->
  serve (get_player key) d =
  (inr (player_detail p (sort_by_date (-1) (innings_of key d)) (innings_of key d)),
   {| db := d;
      calls := [ FindOne "player" oid;
                 FindSorted "innings" key (-1);
                 Aggregate "innings" key ] |}).
Proof.
  intros Hk Hp.
  unfold serve, get_player, bind. rewrite (to_object_id_ok _ _ _ Hk).
  unfold db_player_find_one, db_innings_find_sorted, db_innings_aggregate, query.
  cbn [db calls app]. rewrite Hp. cbn [db calls app ret].
  unfold player_detail, career_of, innings_of.
  rewrite career_items_aggregate. reflexivity.
Qed.

Lemma get_player_missing (d : Database) (key : string) (oid : ObjectId) :
  ObjectId_of_str key = Some oid ->
  find_one oid (player d) = None ->
  serve (get_player key) d =
  (inl NotFound, {| db := d; calls := [ FindOne "player" oid ] |}).
Proof.
  intros Hk Hp.
  unfold serve, get_player, bind. rewrite (to_object_id_ok _ _ _ Hk).
  unfold db_player_find_one, query. cbn [db calls app]. rewrite Hp.
  reflexivity.
Qed.

Lemma get_player_invalid (d : Database) (key : string) :
  ObjectId_of_str key = None ->
  serve (get_player key) d = (inl InvalidIdentifier, {| db := d; calls := [] |}).
Proof.
  intros Hk. unfold serve, get_player, bind.
  rewrite (to_object_id_invalid _ _ Hk). reflexivity.
Qed.

Lemma export_player_found (d : Database) (key : string) (format : option string)
      (oid : ObjectId) (p : Document Player.t) :
  ObjectId_of_str key = Some oid ->
  find_one oid (player d) = Some p ->
  serve (export_player key format) d =
  (inr (export_of format p (sort_by_date 1 (innings_of key d))),
   {| db := d;
      calls := [ FindOne "player" oid; FindSorted "innings" key 1 ] |}).
Proof.
  intros Hk Hp.
  unfold serve, export_player, bind. rewrite (to_object_id_ok _ _ _ Hk).
  unfold db_player_find_one, db_innings_find_sorted, query.
  cbn [db calls app]. rewrite Hp. cbn [db calls app].
  unfold export_of, export_json, export_csv, innings_of.
  destruct (is_json format); reflexivity.
Qed.

Lemma export_player_missing (d : Database) (key : string)
      (format : option string) (oid : ObjectId) :
  ObjectId_of_str key = Some oid ->
  find_one oid (player d) = None ->
  serve (export_player key format) d =
  (inl NotFound, {| db := d; calls := [ FindOne "player" oid ] |}).
Proof.
  intros Hk Hp.
  unfold serve, export_player, bind. rewrite (to_object_id_ok _ _ _ Hk).
  unfold db_player_find_one, query. cbn [db calls app]. rewrite Hp.
  reflexivity.
Qed.

Lemma export_player_invalid (d : Database) (key : string)
      (format : option string) :
  ObjectId_of_str key = None ->
  serve (export_player key format) d =
  (inl InvalidIdentifier, {| db := d; calls := [] |}).
Proof.
  intros Hk. unfold serve, export_player, bind.
  rewrite (to_object_id_invalid _ _ Hk). reflexivity.
Qed.

Lemma summaries_run (l : list (Document Player.t)) (acc : list json) (w : World) :
  for_each l
    (fun p =>
       agg <- db_innings_aggregate (ObjectId_str (_id p)) ;;
       ret (JObj (player_items p ++ career_items (first_or_zero agg))%list))
    acc w =
  (inr (acc ++
        map (fun p => player_summary p (innings_of (ObjectId_str (_id p)) (db w))) l)%list,
   {| db := db w;
      calls := (calls w ++
                map (fun p => Aggregate "innings" (ObjectId_str (_id p))) l)%list |}).
Proof.
  revert acc w. induction l as [| p l IH]; intros acc w; cbn [for_each map].
  - unfold ret. rewrite !app_nil_r. destruct w; reflexivity.
  - unfold bind at 1. unfold bind at 1.
    unfold db_innings_aggregate at 1, query at 1, ret at 1.
    rewrite IH. cbn [db calls].
    rewrite career_items_aggregate, <- !app_assoc. reflexivity.
Qed.

Lemma list_players_run (d : Database) :
  serve list_players d =
  (inr (JList (map (fun p => player_summary p (innings_of (ObjectId_str (_id p)) d))
                   (player d))),
   {| db := d;
      calls := FindAll "player" ::
               map (fun p => Aggregate "innings" (ObjectId_str (_id p))) (player d) |}).
Proof.
  unfold serve, list_players, bind at 1.
  unfold get_documents_player, query. cbn [db calls app].
  unfold bind. rewrite summaries_run. reflexivity.
Qed.

(* ===================================================================== *)
(** ** The derived-metric calculator *)
(* ===================================================================== *)

(** C2.  For every non-negative [runs] and every [balls <= 0] the strike
    rate is exactly [0.0]: a value, not an error, also when [runs > 0] and
    [balls = 0]. *)
Theorem strike_rate_zero_denominator (runs balls : Z) :
  0 <= runs -> balls <= 0 -> strike_rate runs balls = PyFloat.zero.
Proof.
  intros _ Hb. unfold strike_rate.
  destruct (Z.leb_spec balls 0) as [_ | Hlt]; [reflexivity | lia].
Qed.

Lemma strike_rate_zero_denominator_witness :
  strike_rate 7 0 = PyFloat.zero.
Proof.
  apply (strike_rate_zero_denominator 7 0); lia.
Defined.





(** The tie rule applies to the double, not to the exact quotient: of the
    exact quotients [3.125], [14.375] and [30.625] the first and second are
    rounded down and the third up. *)
Remark strike_rate_at_ties :
  strike_rate 1 32 = PyFloat.hundredths 312 /\
  strike_rate 23 160 = PyFloat.hundredths 1437 /\
  strike_rate 49 160 = PyFloat.hundredths 3063.
Proof. repeat split; vm_compute; reflexivity. Qed.

(* ===================================================================== *)
(** ** The aggregation engine *)
(* ===================================================================== *)




(** On the sample store Ann's totals are those of her two innings, in both
    views, and Cal's are zero. *)
Example sample_career_totals :
  exists listed,
    result (serve (get_player ann_key) sample_store) =
      inr (JObj [ ("_id", JStr ann_key); ("name", JStr "Ann");
                  ("role", JStr "Batter"); ("innings", JList listed);
                  ("career",
                   JObj [ ("total_runs", JInt 80);
                          ("total_balls", JInt 60);
                          ("total_fours", JInt 0);
                          ("total_sixes", JInt 0);
                          ("innings_count", JInt 2);
                          ("strike_rate", JFloat (PyFloat.hundredths 13333)) ]) ])
  /\ exists a b,
    result (serve list_players sample_store) =
      inr (JList
             [ a; b;
               JObj [ ("_id", JStr cal_key); ("name", JStr "Cal");
                      ("role", JNull);
                      ("total_runs", JInt 0);
                      ("total_balls", JInt 0);
                      ("total_fours", JInt 0);
                      ("total_sixes", JInt 0);
                      ("innings_count", JInt 0);
                      ("strike_rate", JFloat PyFloat.zero) ] ]).
Proof.
  eexists. split.
  - vm_compute. reflexivity.
  - do 2 eexists. vm_compute. reflexivity.
Qed.



(** On the sample store Bob's innings are stored with the dates 2023-01-01,
    2023-06-01, 2023-03-01; the three views list them as follows. *)
Example sample_sort_order :
  (exists detail,
     result (serve (get_player bob_key) sample_store) = inr detail /\
     dates_listed detail =
       [ JStr "2023-06-01T00:00:00"; JStr "2023-03-01T00:00:00";
         JStr "2023-01-01T00:00:00" ]) /\
  (exists r,
     result (serve (export_player bob_key (Some "json")) sample_store) = inr r /\
     dates_exported r =
       [ JStr "2023-01-01T00:00:00"; JStr "2023-03-01T00:00:00";
         JStr "2023-06-01T00:00:00" ]) /\
  (exists r,
     result (serve (export_player bob_key (Some "csv")) sample_store) = inr r /\
     dates_exported r =
       [ JStr "2023-01-01"; JStr "2023-03-01"; JStr "2023-06-01" ]).
Proof.
  repeat split; eexists; (split; [vm_compute; reflexivity | vm_compute; reflexivity]).
Qed.

(* ===================================================================== *)
(** ** Creation *)
(* ===================================================================== *)

Lemma add_innings_invalid (d : Database) (payload : Innings.t) (now : datetime)
      (new_id : ObjectId) :
  ObjectId_of_str (Innings.player_id payload) = None ->
  serve (add_innings payload now new_id) d =
  (inl InvalidIdentifier, {| db := d; calls := [] |}).
Proof.
  intros Hk. unfold serve, add_innings, bind.
  rewrite (to_object_id_invalid _ _ Hk). reflexivity.
Qed.

Lemma add_innings_missing (d : Database) (payload : Innings.t) (now : datetime)
      (new_id oid : ObjectId) :
  ObjectId_of_str (Innings.player_id payload) = Some oid ->
  find_one oid (player d) = None ->
  serve (add_innings payload now new_id) d =
  (inl NotFound, {| db := d; calls := [ FindOne "player" oid ] |}).
Proof.
  intros Hk Hp. unfold serve, add_innings, bind.
  rewrite (to_object_id_ok _ _ _ Hk).
  unfold db_player_find_one, query. cbn [db calls app]. rewrite Hp.
  reflexivity.
Qed.

(** With an existing player the innings is appended to the collection. *)
Lemma add_innings_found (d : Database) (payload : Innings.t) (now : datetime)
      (new_id oid : ObjectId) (p : Document Player.t) :
  ObjectId_of_str (Innings.player_id payload) = Some oid ->
  find_one oid (player d) = Some p ->
  serve (add_innings payload now new_id) d =
  (inr (JObj [ ("_id", JStr (ObjectId_str new_id)) ]),
   {| db := {| player := player d;
               innings := (innings d ++ [ Doc new_id (dated payload now) ])%list |};
      calls := [ FindOne "player" oid; InsertOne "innings" new_id ] |}).
Proof.
  intros Hk Hp. unfold serve, add_innings, bind.
  rewrite (to_object_id_ok _ _ _ Hk).
  unfold db_player_find_one, query. cbn [db calls app]. rewrite Hp.
  reflexivity.
Qed.

(** A valid body creates the player. *)
Lemma post_players_valid (d : Database) (body : Player.t) (new_id : ObjectId) :
  Player.constraints body = true ->
  serve (post_players body new_id) d =
  (inr (JObj [ ("_id", JStr (ObjectId_str new_id));
               ("name", JStr (Player.name body));
               ("role", opt_str (Player.role body)) ]),
   {| db := {| player := (player d ++ [ Doc new_id body ])%list;
               innings := innings d |};
      calls := [ InsertOne "player" new_id ] |}).
Proof.
  intros Hc. unfold serve, post_players, CreatePlayerRequest, Player.validate.
  rewrite Hc. reflexivity.
Qed.

(** A well-formed key that is the key of no player document parses, and
    the lookup by the parsed key finds nothing. *)
Lemma unmatched_key_lookup (d : Database) (key : string) :
  well_formed_key key = true ->
  (forall p, In p (player d) -> ObjectId_of_str key <> Some (_id p)) ->
  exists oid, ObjectId_of_str key = Some oid /\ find_one oid (player d) = None.
Proof.
  intros Hw Hnone.
  apply ObjectId_of_str_Some in Hw. destruct Hw as [oid Hk].
  exists oid. split; [exact Hk |].
  destruct (find_one oid (player d)) as [p |] eqn:Hp; [| reflexivity].
  apply find_one_Some in Hp. destruct Hp as [Hin Hid].
  exfalso. apply (Hnone p Hin). rewrite Hid. exact Hk.
Qed.

(** C5.  A well-formed key that matches no player record makes the detail
    view fail with [NotFound]: an error distinct from [InvalidIdentifier],
    not a record; the only store call made is the player lookup, so no
    statistics are computed, and the store is unchanged. *)
Theorem get_player_not_found (d : Database) (key : string) :
  well_formed_key key = true ->
  (forall p, In p (player d) -> ObjectId_of_str key <> Some (_id p)) ->
  let r := serve (get_player key) d in
  result r = inl NotFound
  /\ NotFound <> InvalidIdentifier
  /\ (forall view, result r <> inr view)
  /\ (exists oid, ObjectId_of_str key = Some oid /\
                  store_calls r = [ FindOne "player" oid ])
  /\ store_after r = d.
Proof.
  intros Hw Hnone r.
  destruct (unmatched_key_lookup d key Hw Hnone) as (oid & Hk & Hp).
  unfold r. rewrite (get_player_missing d key oid Hk Hp).
  unfold result, store_calls, store_after. cbn [fst snd db calls].
  split; [reflexivity |]. split; [discriminate |].
  split; [discriminate |]. split; [| reflexivity].
  exists oid. split; [exact Hk | reflexivity].
Qed.

Lemma get_player_not_found_witness :
  result (serve (get_player dan_key) sample_store) = inl NotFound.
Proof.
  apply (get_player_not_found sample_store dan_key).
  - reflexivity.
  - intros p Hin.
    cbn [player sample_store In] in Hin.
    destruct Hin as [<- | [<- | [<- | []]]]; vm_compute; discriminate.
Defined.

(** C6.  Creating an innings whose [player_id] is well formed but resolves
    to no player fails with [NotFound] and writes nothing: the store is
    unchanged and the only store call is the player lookup. *)
Theorem add_innings_unknown_player (d : Database) (payload : Innings.t)
        (now : datetime) (new_id : ObjectId) :
  well_formed_key (Innings.player_id payload) = true ->
  (forall p, In p (player d) ->
             ObjectId_of_str (Innings.player_id payload) <> Some (_id p)) ->
  let r := serve (add_innings payload now new_id) d in
  result r = inl NotFound
  /\ store_after r = d
  /\ (exists oid, store_calls r = [ FindOne "player" oid ])
  /\ (forall body,
        CreateInningsRequest body = Some payload ->
        let r' := serve (post_innings body now new_id) d in
        result r' = inl NotFound /\ store_after r' = d).
Proof.
  intros Hw Hnone r.
  destruct (unmatched_key_lookup d (Innings.player_id payload) Hw Hnone)
    as (oid & Hk & Hp).
  assert (Hr : r = (inl NotFound, {| db := d; calls := [ FindOne "player" oid ] |}))
    by (apply add_innings_missing; assumption).
  split; [rewrite Hr; reflexivity |].
  split; [rewrite Hr; reflexivity |].
  split; [exists oid; rewrite Hr; reflexivity |].
  intros body Hbody r'. unfold r', post_innings, serve. rewrite Hbody.
  fold (serve (add_innings payload now new_id) d). fold r.
  rewrite Hr. split; reflexivity.
Qed.

Lemma add_innings_unknown_player_witness :
  result (serve (add_innings
                   {| Innings.player_id := dan_key; Innings.runs := 10;
                      Innings.balls := 12; Innings.fours := 1;
                      Innings.sixes := 0; Innings.out := true;
                      Innings.opposition := None; Innings.venue := None;
                      Innings.date := None |}
                   sample_time sample_new_id) sample_store) = inl NotFound.
Proof.
  apply add_innings_unknown_player.
  - reflexivity.
  - intros p Hin.
    cbn [player sample_store In] in Hin.
    destruct Hin as [<- | [<- | [<- | []]]]; vm_compute; discriminate.
Defined.

(* ===================================================================== *)
(** ** Identifier validation *)
(* ===================================================================== *)

Lemma not_hex_not_well_formed (s : string) (c : ascii) :
  In c (list_ascii_of_string s) -> is_hex c = false ->
  well_formed_key s = false.
Proof.
  intros Hin Hc. unfold well_formed_key.
  destruct (forallb is_hex (list_ascii_of_string s)) eqn:Hall.
  - rewrite forallb_forall in Hall. rewrite (Hall c Hin) in Hc. discriminate.
  - apply andb_false_r.
Qed.

Lemma wrong_length_not_well_formed (s : string) :
  String.length s <> 24%nat -> well_formed_key s = false.
Proof.
  intros Hlen. unfold well_formed_key.
  destruct (Nat.eqb_spec (String.length s) 24); [contradiction | reflexivity].
Qed.

(** C7.  A string that is not a well-formed key (wrong length, a character
    that is no hexadecimal digit, the empty string) is rejected by the
    identifier codec with [InvalidIdentifier], an error distinct from
    [NotFound]; the handlers that take a key fail with it before any call
    on the store, and the codec never changes the store or its log. *)
Theorem malformed_key_rejected (id_str : string) :
  well_formed_key id_str = false ->
  (forall w, to_object_id id_str w = (inl InvalidIdentifier, w))
  /\ (forall d, serve (get_player id_str) d =
                (inl InvalidIdentifier, {| db := d; calls := [] |}))
  /\ (forall d format, serve (export_player id_str format) d =
                       (inl InvalidIdentifier, {| db := d; calls := [] |}))
  /\ (forall d payload now new_id,
        Innings.player_id payload = id_str ->
        serve (add_innings payload now new_id) d =
        (inl InvalidIdentifier, {| db := d; calls := [] |}))
  /\ InvalidIdentifier <> NotFound
  /\ (forall s w, snd (to_object_id s w) = w)
  /\ well_formed_key EmptyString = false
  /\ (forall s, String.length s <> 24%nat -> well_formed_key s = false)
  /\ (forall s c, In c (list_ascii_of_string s) -> is_hex c = false ->
                  well_formed_key s = false).
Proof.
  intros Hw. apply ObjectId_of_str_None in Hw.
  split; [intros w; apply to_object_id_invalid; exact Hw |].
  split; [intros d; apply get_player_invalid; exact Hw |].
  split; [intros d format; apply export_player_invalid; exact Hw |].
  split; [intros d payload now new_id Hid; apply add_innings_invalid;
          rewrite Hid; exact Hw |].
  split; [discriminate |].
  split; [intros s w; unfold to_object_id;
          destruct (ObjectId_of_str s); reflexivity |].
  split; [reflexivity |].
  split; [exact wrong_length_not_well_formed | exact not_hex_not_well_formed].
Qed.

Lemma malformed_key_rejected_witness :
  serve (get_player "64b7f0c2a1d3e4f5a6b7c8dg") sample_store =
  (inl InvalidIdentifier, {| db := sample_store; calls := [] |}).
Proof.
  apply (malformed_key_rejected "64b7f0c2a1d3e4f5a6b7c8dg").
  reflexivity.
Defined.

(* ===================================================================== *)
(** ** Payload validation *)
(* ===================================================================== *)





(* ===================================================================== *)
(** ** Detail and export views *)
(* ===================================================================== *)





(** On the sample store Ann's key in upper case finds Ann but none of
    her two innings. *)
Example sample_upper_case_key :
  innings_of ann_key sample_store =
    [ played x01 ann_key 50 40 (midnight 2023 1 1);
      played x03 ann_key 30 20 (midnight 2023 6 1) ]
  /\ result (serve (get_player ann_key_upper) sample_store) =
     inr (JObj [ ("_id", JStr ann_key); ("name", JStr "Ann");
                 ("role", JStr "Batter"); ("innings", JList []);
                 ("career", zero_career) ]).
Proof. split; vm_compute; reflexivity. Qed.





(* ===================================================================== *)
(** ** Outcomes of the creation routes *)
(* ===================================================================== *)

Lemma between_false (lo hi x : Z) :
  Innings.between lo hi x = false -> x < lo \/ hi < x.
Proof.
  unfold Innings.between. intros H. apply andb_false_iff in H.
  destruct H as [H | H]; apply Z.leb_gt in H; [left | right]; exact H.
Qed.

Lemma opt_between_false (lo hi : Z) (o : option Z) :
  Innings.opt_between lo hi o = false ->
  exists n, o = Some n /\ (n < lo \/ hi < n).
Proof.
  destruct o as [n |]; cbn [Innings.opt_between]; [| discriminate].
  intros H. exists n. split; [reflexivity | apply between_false; exact H].
Qed.

Lemma opt_len_le_false (o : option string) (n : nat) :
  opt_len_le o n = false -> exists s, o = Some s /\ (n < String.length s)%nat.
Proof.
  destruct o as [s |]; cbn [opt_len_le]; [| discriminate].
  intros H. exists s. split; [reflexivity | apply Nat.leb_gt; exact H].
Qed.

Lemma constraints_out_of_bounds (b : Innings.body) :
  Innings.constraints b = false -> innings_out_of_bounds b.
Proof.
  unfold Innings.constraints, innings_out_of_bounds. intros H.
  apply andb_false_iff in H. destruct H as [H | H].
  2: { apply opt_len_le_false in H. do 7 right. exact H. }
  apply andb_false_iff in H. destruct H as [H | H].
  2: { apply opt_len_le_false in H. do 6 right. left. exact H. }
  apply andb_false_iff in H. destruct H as [H | H].
  2: { apply opt_between_false in H. do 5 right. left. exact H. }
  apply andb_false_iff in H. destruct H as [H | H].
  2: { apply opt_between_false in H. do 4 right. left. exact H. }
  apply andb_false_iff in H. destruct H as [H | H].
  - apply between_false in H. destruct H; [left | right; left]; assumption.
  - apply between_false in H.
    destruct H; [do 2 right; left | do 3 right; left]; assumption.
Qed.

(** The three outcomes of [add_innings] and the store each leaves. *)
Lemma add_innings_cases (d : Database) (payload : Innings.t) (now : datetime)
      (new_id : ObjectId) :
  let r := serve (add_innings payload now new_id) d in
  (ObjectId_of_str (Innings.player_id payload) = None /\
   r = (inl InvalidIdentifier, {| db := d; calls := [] |}))
  \/ (exists oid,
        ObjectId_of_str (Innings.player_id payload) = Some oid /\
        find_one oid (player d) = None /\
        r = (inl NotFound, {| db := d; calls := [ FindOne "player" oid ] |}))
  \/ (exists oid p,
        ObjectId_of_str (Innings.player_id payload) = Some oid /\
        find_one oid (player d) = Some p /\
        r = (inr (JObj [ ("_id", JStr (ObjectId_str new_id)) ]),
             {| db := with_new_innings d payload now new_id;
                calls := [ FindOne "player" oid; InsertOne "innings" new_id ] |})).
Proof.
  intros r. unfold r.
  destruct (ObjectId_of_str (Innings.player_id payload)) as [oid |] eqn:Hk.
  - destruct (find_one oid (player d)) as [p |] eqn:Hp.
    + right. right. exists oid, p.
      split; [reflexivity |]. split; [exact Hp |].
      apply (add_innings_found d payload now new_id oid p Hk Hp).
    + right. left. exists oid.
      split; [reflexivity |]. split; [exact Hp |].
      apply (add_innings_missing d payload now new_id oid Hk Hp).
  - left. split; [reflexivity |].
    apply (add_innings_invalid d payload now new_id Hk).
Qed.




(** X3.  [add_innings] has three outcomes and writes in one of them only:
    a malformed [player_id] gives [InvalidIdentifier] and an unknown one
    [NotFound], both leaving the store as it was; otherwise the answer is
    the new key's string and the store gains exactly one innings, appended
    after the existing ones: the payload with its own date, or the current
    time when it has none.  Players are never touched. *)
Theorem add_innings_outcomes (d : Database) (payload : Innings.t)
        (now : datetime) (new_id : ObjectId) :
  let r := serve (add_innings payload now new_id) d in
  (result r = inl InvalidIdentifier /\ store_after r = d)
  \/ (result r = inl NotFound /\ store_after r = d)
  \/ (result r = inr (JObj [ ("_id", JStr (ObjectId_str new_id)) ]) /\
      player (store_after r) = player d /\
      exists stored,
        innings (store_after r) = (innings d ++ [ Doc new_id stored ])%list /\
        Innings.date stored =
          Some (match Innings.date payload with Some on => on | None => now end) /\
        Innings.player_id stored = Innings.player_id payload /\
        Innings.runs stored = Innings.runs payload /\
        Innings.balls stored = Innings.balls payload /\
        Innings.fours stored = Innings.fours payload /\
        Innings.sixes stored = Innings.sixes payload /\
        Innings.out stored = Innings.out payload /\
        Innings.opposition stored = Innings.opposition payload /\
        Innings.venue stored = Innings.venue payload).
Proof.
  intros r.
  destruct (add_innings_cases d payload now new_id)
    as [[_ Hr] | [(oid & _ & _ & Hr) | (oid & p & _ & _ & Hr)]];
    fold r in Hr; rewrite Hr.
  - left. split; reflexivity.
  - right. left. split; reflexivity.
  - right. right. split; [reflexivity |]. split; [reflexivity |].
    exists (dated payload now). split; [reflexivity |].
    split; [destruct (Innings.date payload) eqn:Hd; unfold dated;
            cbn [Innings.date]; rewrite Hd; reflexivity |].
    repeat split.
Qed.

(* ===================================================================== *)
(** ** Reading after writing *)
(* ===================================================================== *)

Lemma match_player_id_app (pid : string) (c c' : list (Document Innings.t)) :
  match_player_id pid (c ++ c') =
  (match_player_id pid c ++ match_player_id pid c')%list.
Proof. unfold match_player_id. apply filter_app. Qed.

Lemma match_player_id_one (pid : string) (i : Document Innings.t) :
  match_player_id pid [ i ] =
  if String.eqb (Innings.player_id (fields i)) pid then [ i ] else [].
Proof. reflexivity. Qed.

Lemma sum_of_app (f : Innings.t -> Z) (a b : list (Document Innings.t)) :
  sum_of f (a ++ b) = sum_of f a + sum_of f b.
Proof.
  unfold sum_of. induction a as [| x a IH]; cbn [app fold_right].
  - reflexivity.
  - rewrite IH. lia.
Qed.

Lemma sum_of_perm (f : Innings.t -> Z) (a b : list (Document Innings.t)) :
  Permutation a b -> sum_of f a = sum_of f b.
Proof.
  unfold sum_of. induction 1 as [| x a b _ IH | x y a | a b c _ IH1 _ IH2];
    cbn [fold_right]; lia.
Qed.

Lemma find_one_app_found {A} (oid : ObjectId) (c c' : list (Document A))
      (p : Document A) :
  find_one oid c = Some p -> find_one oid (c ++ c') = Some p.
Proof.
  unfold find_one. induction c as [| x c IH]; cbn [app find]; [discriminate |].
  destruct (ObjectId_eqb (_id x) oid); [intros H; exact H | exact IH].
Qed.

Lemma find_one_app_fresh {A} (oid : ObjectId) (c : list (Document A))
      (x : Document A) :
  (forall q, In q c -> _id q <> oid) -> _id x = oid ->
  find_one oid (c ++ [ x ]) = Some x.
Proof.
  unfold find_one. intros Hfresh Hx.
  induction c as [| y c IH]; cbn [app find].
  - rewrite Hx, ObjectId_eqb_refl. reflexivity.
  - destruct (ObjectId_eqb (_id y) oid) eqn:Hy.
    + exfalso. apply ObjectId_eqb_eq in Hy.
      apply (Hfresh y); [left; reflexivity | exact Hy].
    + apply IH. intros q Hq. apply Hfresh. right. exact Hq.
Qed.

Lemma dated_player_id (payload : Innings.t) (now : datetime) :
  Innings.player_id (dated payload now) = Innings.player_id payload.
Proof. reflexivity. Qed.

(** The innings a key selects once an innings has been added. *)
Lemma innings_of_with_new_innings (d : Database) (payload : Innings.t)
      (now : datetime) (new_id : ObjectId) (pid : string) :
  innings_of pid (with_new_innings d payload now new_id) =
  (innings_of pid d ++
   if String.eqb (Innings.player_id payload) pid
   then [ Doc new_id (dated payload now) ] else [])%list.
Proof.
  unfold innings_of, with_new_innings. cbn [innings].
  rewrite match_player_id_app, match_player_id_one. reflexivity.
Qed.

(** X4.  An innings added for an existing player is served back by the
    detail view requested with the same key string: the view lists the
    earlier innings of that key and the new one, the innings count is one
    higher, and runs, balls, fours and sixes of the payload are added to
    the totals, from which the strike rate is recomputed. *)
Theorem add_innings_then_get_player (d : Database) (payload : Innings.t)
        (now : datetime) (new_id oid : ObjectId) (p : Document Player.t) :
  ObjectId_of_str (Innings.player_id payload) = Some oid ->
  find_one oid (player d) = Some p ->
  let key := Innings.player_id payload in
  let d' := store_after (serve (add_innings payload now new_id) d) in
  let before := innings_of key d in
  let added := Doc new_id (dated payload now) in
  exists listed,
    Permutation listed (before ++ [ added ]) /\
    result (serve (get_player key) d') =
      inr (JObj (player_items p ++
                 [ ("innings", JList (map detail_innings listed));
                   ("career",
                    JObj [ ("total_runs",
                            JInt (sum_of Innings.runs before + Innings.runs payload));
                           ("total_balls",
                            JInt (sum_of Innings.balls before + Innings.balls payload));
                           ("total_fours",
                            JInt (sum_of Innings.fours before + Innings.fours payload));
                           ("total_sixes",
                            JInt (sum_of Innings.sixes before + Innings.sixes payload));
                           ("innings_count",
                            JInt (Z.of_nat (List.length before) + 1));
                           ("strike_rate",
                            JFloat (strike_rate
                                      (sum_of Innings.runs before + Innings.runs payload)
                                      (sum_of Innings.balls before + Innings.balls payload))) ]) ])%list).
Proof.
  intros Hk Hp key d' before added.
  assert (Hd' : d' = with_new_innings d payload now new_id).
  { unfold d'. rewrite (add_innings_found d payload now new_id oid p Hk Hp).
    reflexivity. }
  assert (Hsel : innings_of key d' = (before ++ [ added ])%list).
  { rewrite Hd', innings_of_with_new_innings. unfold key.
    rewrite String.eqb_refl. reflexivity. }
  exists (sort_by_date (-1) (innings_of key d')).
  split; [rewrite <- Hsel; apply sort_by_date_perm |].
  assert (Hp' : find_one oid (player d') = Some p) by (rewrite Hd'; exact Hp).
  rewrite (get_player_found d' key oid p Hk Hp').
  unfold result, player_detail, career_of, career_entries. cbn [fst].
  rewrite Hsel, !sum_of_app, length_app.
  unfold added, sum_of. cbn [fold_right fields dated Innings.runs Innings.balls
                             Innings.fours Innings.sixes List.length].
  rewrite !Z.add_0_r, Nat2Z.inj_add. reflexivity.
Qed.

Lemma add_innings_then_get_player_witness :
  exists listed,
    Permutation listed
      (innings_of ann_key sample_store ++
       [ Doc sample_new_id
             (dated {| Innings.player_id := ann_key; Innings.runs := 20;
                       Innings.balls := 10; Innings.fours := 2;
                       Innings.sixes := 1; Innings.out := false;
                       Innings.opposition := None; Innings.venue := None;
                       Innings.date := None |} sample_time) ]).
Proof.
  assert (Hk : ObjectId_of_str ann_key = Some ann_id) by reflexivity.
  assert (Hp : find_one ann_id (player sample_store) = Some ann) by reflexivity.
  destruct (add_innings_then_get_player sample_store
              {| Innings.player_id := ann_key; Innings.runs := 20;
                 Innings.balls := 10; Innings.fours := 2;
                 Innings.sixes := 1; Innings.out := false;
                 Innings.opposition := None; Innings.venue := None;
                 Innings.date := None |}
              sample_time sample_new_id ann_id ann Hk Hp)
    as (listed & Hperm & _).
  exists listed. exact Hperm.
Defined.

(** X5.  An innings added under a spelling of the player's key other than
    the printed one (upper-case digits, say) is accepted and stored, yet the
    list view does not count it: every summary is what it was before. *)
Theorem add_innings_unprinted_key_unlisted (d : Database) (payload : Innings.t)
        (now : datetime) (new_id oid : ObjectId) (p : Document Player.t) :
  ObjectId_of_str (Innings.player_id payload) = Some oid ->
  find_one oid (player d) = Some p ->
  Innings.player_id payload <> ObjectId_str oid ->
  let r := serve (add_innings payload now new_id) d in
  result r = inr (JObj [ ("_id", JStr (ObjectId_str new_id)) ]) /\
  innings (store_after r) =
    (innings d ++ [ Doc new_id (dated payload now) ])%list /\
  result (serve list_players (store_after r)) = result (serve list_players d).
Proof.
  intros Hk Hp Hne r. unfold r.
  rewrite (add_innings_found d payload now new_id oid p Hk Hp).
  unfold result, store_after. cbn [fst snd db].
  split; [reflexivity |]. split; [reflexivity |].
  fold (with_new_innings d payload now new_id).
  rewrite !list_players_run. cbn [fst player with_new_innings].
  do 2 f_equal. apply map_ext. intros q.
  fold (with_new_innings d payload now new_id).
  rewrite innings_of_with_new_innings.
  destruct (String.eqb_spec (Innings.player_id payload) (ObjectId_str (_id q)))
    as [Heq | _]; [| rewrite app_nil_r; reflexivity].
  exfalso. apply Hne.
  apply (printed_key_unique _ oid (_id q) Hk Heq).
Qed.

Lemma add_innings_unprinted_key_unlisted_witness :
  result (serve list_players
            (store_after
               (serve (add_innings
                         {| Innings.player_id := ann_key_upper;
                            Innings.runs := 99; Innings.balls := 60;
                            Innings.fours := 9; Innings.sixes := 3;
                            Innings.out := true; Innings.opposition := None;
                            Innings.venue := None; Innings.date := None |}
                         sample_time sample_new_id) sample_store))) =
  result (serve list_players sample_store).
Proof.
  assert (Hk : ObjectId_of_str ann_key_upper = Some ann_id) by reflexivity.
  assert (Hp : find_one ann_id (player sample_store) = Some ann) by reflexivity.
  apply (add_innings_unprinted_key_unlisted sample_store
           {| Innings.player_id := ann_key_upper;
              Innings.runs := 99; Innings.balls := 60;
              Innings.fours := 9; Innings.sixes := 3;
              Innings.out := true; Innings.opposition := None;
              Innings.venue := None; Innings.date := None |}
           sample_time sample_new_id ann_id ann Hk Hp).
  vm_compute. discriminate.
Defined.

(** X6.  A player created under a key no player of the store has is
    served back by the detail view requested with the key string the
    creation returned, with the name and role given, and by the list view
    as one more summary after those of the players there were. *)
Theorem post_players_then_read (d : Database) (body : Player.t)
        (new_id : ObjectId) :
  (1 <= String.length (Player.name body) <= 100)%nat ->
  (forall q, In q (player d) -> _id q <> new_id) ->
  let created := Doc new_id body in
  let key := ObjectId_str new_id in
  let r := serve (post_players body new_id) d in
  result r = inr (JObj [ ("_id", JStr key);
                         ("name", JStr (Player.name body));
                         ("role", opt_str (Player.role body)) ]) /\
  result (serve (get_player key) (store_after r)) =
    inr (player_detail created (sort_by_date (-1) (innings_of key d))
                       (innings_of key d)) /\
  result (serve list_players (store_after r)) =
    inr (JList (map (fun q => player_summary q
                                (innings_of (ObjectId_str (_id q)) d))
                    (player d ++ [ created ]))).
Proof.
  intros [Hlo Hhi] Hfresh created key r.
  assert (Hc : Player.constraints body = true).
  { unfold Player.constraints. apply andb_true_iff.
    split; apply Nat.leb_le; assumption. }
  unfold r. rewrite (post_players_valid d body new_id Hc).
  unfold result, store_after. cbn [fst snd db].
  split; [reflexivity |]. split.
  - rewrite (get_player_found _ key new_id created (ObjectId_of_str_str new_id)).
    + reflexivity.
    + cbn [player]. apply find_one_app_fresh; [exact Hfresh | reflexivity].
  - rewrite list_players_run. reflexivity.
Qed.

Lemma post_players_then_read_witness :
  result (serve (get_player (ObjectId_str sample_new_id))
            (store_after
               (serve (post_players
                         {| Player.name := "Dee"; Player.role := Some "Keeper" |}
                         sample_new_id) sample_store))) =
  inr (player_detail
         (Doc sample_new_id {| Player.name := "Dee"; Player.role := Some "Keeper" |})
         (sort_by_date (-1) (innings_of (ObjectId_str sample_new_id) sample_store))
         (innings_of (ObjectId_str sample_new_id) sample_store)).
Proof.
  apply (post_players_then_read sample_store
           {| Player.name := "Dee"; Player.role := Some "Keeper" |}
           sample_new_id).
  - cbn. lia.
  - intros q Hq. cbn [player sample_store In] in Hq.
    destruct Hq as [<- | [<- | [<- | []]]]; discriminate.
Defined.

(* ===================================================================== *)
(** ** The read handlers *)
(* ===================================================================== *)

Lemma get_player_cases (d : Database) (key : string) :
  (ObjectId_of_str key = None /\
   serve (get_player key) d = (inl InvalidIdentifier, {| db := d; calls := [] |}))
  \/ (exists oid,
        ObjectId_of_str key = Some oid /\ find_one oid (player d) = None /\
        serve (get_player key) d =
        (inl NotFound, {| db := d; calls := [ FindOne "player" oid ] |}))
  \/ (exists oid p,
        ObjectId_of_str key = Some oid /\ find_one oid (player d) = Some p /\
        serve (get_player key) d =
        (inr (player_detail p (sort_by_date (-1) (innings_of key d))
                            (innings_of key d)),
         {| db := d;
            calls := [ FindOne "player" oid; FindSorted "innings" key (-1);
                       Aggregate "innings" key ] |})).
Proof.
  destruct (ObjectId_of_str key) as [oid |] eqn:Hk.
  - destruct (find_one oid (player d)) as [p |] eqn:Hp.
    + right. right. exists oid, p. repeat split; try assumption.
      apply get_player_found; assumption.
    + right. left. exists oid. repeat split; try assumption.
      apply get_player_missing; assumption.
  - left. split; [reflexivity | apply get_player_invalid; exact Hk].
Qed.

Lemma export_player_cases (d : Database) (key : string) (format : option string) :
  (ObjectId_of_str key = None /\
   serve (export_player key format) d =
   (inl InvalidIdentifier, {| db := d; calls := [] |}))
  \/ (exists oid,
        ObjectId_of_str key = Some oid /\ find_one oid (player d) = None /\
        serve (export_player key format) d =
        (inl NotFound, {| db := d; calls := [ FindOne "player" oid ] |}))
  \/ (exists oid p,
        ObjectId_of_str key = Some oid /\ find_one oid (player d) = Some p /\
        serve (export_player key format) d =
        (inr (export_of format p (sort_by_date 1 (innings_of key d))),
         {| db := d;
            calls := [ FindOne "player" oid; FindSorted "innings" key 1 ] |})).
Proof.
  destruct (ObjectId_of_str key) as [oid |] eqn:Hk.
  - destruct (find_one oid (player d)) as [p |] eqn:Hp.
    + right. right. exists oid, p. repeat split; try assumption.
      apply export_player_found; assumption.
    + right. left. exists oid. repeat split; try assumption.
      apply export_player_missing; assumption.
  - left. split; [reflexivity | apply export_player_invalid; exact Hk].
Qed.

Lemma get_player_store (d : Database) (key : string) :
  store_after (serve (get_player key) d) = d.
Proof.
  destruct (get_player_cases d key)
    as [[_ Hr] | [(oid & _ & _ & Hr) | (oid & p & _ & _ & Hr)]];
    rewrite Hr; reflexivity.
Qed.

Lemma export_player_store (d : Database) (key : string) (format : option string) :
  store_after (serve (export_player key format) d) = d.
Proof.
  destruct (export_player_cases d key format)
    as [[_ Hr] | [(oid & _ & _ & Hr) | (oid & p & _ & _ & Hr)]];
    rewrite Hr; reflexivity.
Qed.

Lemma list_players_store (d : Database) :
  store_after (serve list_players d) = d.
Proof. rewrite list_players_run. reflexivity. Qed.

Lemma aggregates_write_free (l : list (Document Player.t)) :
  forallb (fun c => negb (is_write c))
          (map (fun p => Aggregate "innings" (ObjectId_str (_id p))) l) = true.
Proof. induction l as [| p l IH]; [reflexivity | exact IH]. Qed.

(** X7.  The list view, the detail view and the export never write:
    whatever the key, the format and the outcome, the store is left as it
    was and no insertion is among the store calls made. *)
Theorem read_handlers_never_write (d : Database) (key : string)
        (format : option string) :
  (store_after (serve list_players d) = d /\
   forallb (fun c => negb (is_write c)) (store_calls (serve list_players d)) = true)
  /\ (store_after (serve (get_player key) d) = d /\
      forallb (fun c => negb (is_write c))
              (store_calls (serve (get_player key) d)) = true)
  /\ (store_after (serve (export_player key format) d) = d /\
      forallb (fun c => negb (is_write c))
              (store_calls (serve (export_player key format) d)) = true).
Proof.
  split; [| split].
  - split; [apply list_players_store |].
    rewrite list_players_run. unfold store_calls. cbn [snd calls forallb is_write negb andb].
    apply aggregates_write_free.
  - split; [apply get_player_store |].
    destruct (get_player_cases d key)
      as [[_ Hr] | [(oid & _ & _ & Hr) | (oid & p & _ & _ & Hr)]];
      rewrite Hr; reflexivity.
  - split; [apply export_player_store |].
    destruct (export_player_cases d key format)
      as [[_ Hr] | [(oid & _ & _ & Hr) | (oid & p & _ & _ & Hr)]];
      rewrite Hr; reflexivity.
Qed.

(** X8.  The list view never fails and returns one summary per player
    document, in the store's order; it makes one store call for the
    players and then one aggregation per player document, so one more
    call than there are players. *)
Theorem list_players_one_query_per_player (d : Database) :
  exists summaries,
    result (serve list_players d) = inr (JList summaries) /\
    List.length summaries = List.length (player d) /\
    map (dict_get "_id") summaries =
      map (fun p => Some (JStr (ObjectId_str (_id p)))) (player d) /\
    store_calls (serve list_players d) =
      FindAll "player" ::
      map (fun p => Aggregate "innings" (ObjectId_str (_id p))) (player d) /\
    List.length (store_calls (serve list_players d)) = S (List.length (player d)).
Proof.
  rewrite list_players_run. unfold result, store_calls. cbn [fst snd calls].
  eexists. split; [reflexivity |].
  split; [apply length_map |].
  split; [rewrite map_map; reflexivity |].
  split; [reflexivity |].
  cbn [List.length]. rewrite length_map. reflexivity.
Qed.

Lemma int_entry_detail_innings (i : Document Innings.t) :
  int_entry "runs" (detail_innings i) = Innings.runs (fields i) /\
  int_entry "balls" (detail_innings i) = Innings.balls (fields i) /\
  int_entry "fours" (detail_innings i) = Innings.fours (fields i) /\
  int_entry "sixes" (detail_innings i) = Innings.sixes (fields i).
Proof. repeat split. Qed.

Lemma sum_entries_detail (l : list (Document Innings.t)) :
  sum_entries "runs" (map detail_innings l) = sum_of Innings.runs l /\
  sum_entries "balls" (map detail_innings l) = sum_of Innings.balls l /\
  sum_entries "fours" (map detail_innings l) = sum_of Innings.fours l /\
  sum_entries "sixes" (map detail_innings l) = sum_of Innings.sixes l.
Proof.
  unfold sum_entries, sum_of.
  induction l as [| i l (IH1 & IH2 & IH3 & IH4)]; cbn [map fold_right].
  - repeat split.
  - destruct (int_entry_detail_innings i) as (H1 & H2 & H3 & H4).
    rewrite H1, H2, H3, H4, IH1, IH2, IH3, IH4. repeat split.
Qed.

(** X9.  Every detail view is consistent with itself: the innings count of
    its career totals is the number of innings it lists, each total is the
    sum of that field over the innings listed, and the career strike rate
    is the strike rate of the summed runs and balls of the innings listed. *)
Theorem detail_totals_match_listed_innings (d : Database) (key : string)
        (detail : json) :
  result (serve (get_player key) d) = inr detail ->
  exists listed,
    dict_get "innings" detail = Some (JList listed) /\
    dict_get "career" detail =
      Some (JObj [ ("total_runs", JInt (sum_entries "runs" listed));
                   ("total_balls", JInt (sum_entries "balls" listed));
                   ("total_fours", JInt (sum_entries "fours" listed));
                   ("total_sixes", JInt (sum_entries "sixes" listed));
                   ("innings_count", JInt (Z.of_nat (List.length listed)));
                   ("strike_rate",
                    JFloat (strike_rate (sum_entries "runs" listed)
                                        (sum_entries "balls" listed))) ]).
Proof.
  intros Hd.
  destruct (get_player_cases d key)
    as [[_ Hr] | [(oid & _ & _ & Hr) | (oid & p & _ & _ & Hr)]];
    rewrite Hr in Hd; try discriminate.
  injection Hd as <-.
  set (all := innings_of key d).
  set (listed := sort_by_date (-1) all).
  exists (map detail_innings listed).
  split; [reflexivity |].
  destruct (sum_entries_detail listed) as (H1 & H2 & H3 & H4).
  rewrite H1, H2, H3, H4, length_map.
  assert (Hperm : Permutation listed all) by apply sort_by_date_perm.
  rewrite !(sum_of_perm _ listed all Hperm), (Permutation_length Hperm).
  reflexivity.
Qed.

Lemma detail_totals_match_listed_innings_witness :
  exists listed,
    dict_get "innings"
      (player_detail bob (sort_by_date (-1) (innings_of bob_key sample_store))
                     (innings_of bob_key sample_store)) = Some (JList listed).
Proof.
  assert (Hd : result (serve (get_player bob_key) sample_store) =
               inr (player_detail bob
                      (sort_by_date (-1) (innings_of bob_key sample_store))
                      (innings_of bob_key sample_store))).
  { rewrite (get_player_found sample_store bob_key bob_id bob); reflexivity. }
  destruct (detail_totals_match_listed_innings sample_store bob_key _ Hd)
    as (listed & Hl & _).
  exists listed. exact Hl.
Defined.




(* ===================================================================== *)
(** ** What the routes keep true of the store *)
(* ===================================================================== *)

Lemma opt_between_default (lo hi : Z) (o : option Z) :
  lo <= 0 <= hi -> Innings.opt_between lo hi o = true ->
  lo <= Innings.default 0 o <= hi.
Proof.
  intros H0. destruct o as [n |]; cbn [Innings.opt_between Innings.default].
  - unfold Innings.between. intros H. apply andb_true_iff in H.
    destruct H as [H1 H2]. apply Z.leb_le in H1, H2. lia.
  - intros _. exact H0.
Qed.

(** A request model that was built satisfies the declared bounds. *)
Lemma validate_in_bounds (b : Innings.body) (payload : Innings.t) :
  Innings.validate b = Some payload -> innings_in_bounds payload.
Proof.
  unfold Innings.validate. destruct (Innings.constraints b) eqn:Hc;
    [| discriminate].
  intros [= <-]. unfold Innings.constraints in Hc.
  apply andb_true_iff in Hc. destruct Hc as [Hc Hvenue].
  apply andb_true_iff in Hc. destruct Hc as [Hc Hopp].
  apply andb_true_iff in Hc. destruct Hc as [Hc Hsixes].
  apply andb_true_iff in Hc. destruct Hc as [Hc Hfours].
  apply andb_true_iff in Hc. destruct Hc as [Hruns Hballs].
  unfold Innings.between in Hruns, Hballs.
  apply andb_true_iff in Hruns, Hballs.
  destruct Hruns as [Hr1 Hr2], Hballs as [Hb1 Hb2].
  apply Z.leb_le in Hr1, Hr2, Hb1, Hb2.
  unfold innings_in_bounds.
  cbn [Innings.runs Innings.balls Innings.fours Innings.sixes
       Innings.opposition Innings.venue].
  split; [lia |]. split; [lia |].
  split; [apply opt_between_default; [lia | exact Hfours] |].
  split; [apply opt_between_default; [lia | exact Hsixes] |].
  split; assumption.
Qed.

Lemma dated_in_bounds (payload : Innings.t) (now : datetime) :
  innings_in_bounds payload -> innings_in_bounds (dated payload now).
Proof. intros H. exact H. Qed.

Lemma dated_has_date (payload : Innings.t) (now : datetime) :
  Innings.date (dated payload now) <> None.
Proof.
  unfold dated. cbn [Innings.date].
  destruct (Innings.date payload); discriminate.
Qed.

Lemma resolves_with_new_player (d : Database) (body : Player.t)
      (new_id : ObjectId) (f : Innings.t) :
  resolves d f -> resolves (with_new_player d body new_id) f.
Proof.
  intros (oid & p & Hk & Hp). exists oid, p. split; [exact Hk |].
  cbn [with_new_player player]. apply find_one_app_found. exact Hp.
Qed.

Lemma post_players_invariant (d : Database) (body : Player.t) (new_id : ObjectId) :
  store_invariant d ->
  store_invariant (store_after (serve (post_players body new_id) d)).
Proof.
  intros [Hplayers Hinnings].
  destruct (Player.constraints body) eqn:Hc.
  - rewrite (post_players_valid d body new_id Hc).
    unfold store_after. cbn [snd db].
    fold (with_new_player d body new_id). split.
    + intros p Hin. cbn [with_new_player player] in Hin.
      apply in_app_or in Hin. destruct Hin as [Hin | [<- | []]].
      * apply Hplayers. exact Hin.
      * exact Hc.
    + intros i Hin. cbn [with_new_player innings] in Hin.
      destruct (Hinnings i Hin) as (Hb & Hd & Hr).
      split; [exact Hb |]. split; [exact Hd |].
      apply resolves_with_new_player. exact Hr.
  - unfold serve, post_players, CreatePlayerRequest, Player.validate.
    rewrite Hc. split; assumption.
Qed.

Lemma post_innings_invariant (d : Database) (body : Innings.body)
      (now : datetime) (new_id : ObjectId) :
  store_invariant d ->
  store_invariant (store_after (serve (post_innings body now new_id) d)).
Proof.
  intros Hinv. unfold serve, post_innings, CreateInningsRequest.
  destruct (Innings.validate body) as [payload |] eqn:Hv; [| exact Hinv].
  fold (serve (add_innings payload now new_id) d).
  destruct (add_innings_cases d payload now new_id)
    as [[_ Hr] | [(oid & _ & _ & Hr) | (oid & p & Hk & Hp & Hr)]];
    rewrite Hr; unfold store_after; cbn [snd db]; try exact Hinv.
  destruct Hinv as [Hplayers Hinnings]. split.
  - exact Hplayers.
  - intros i Hin. cbn [with_new_innings innings] in Hin.
    apply in_app_or in Hin. destruct Hin as [Hin | [<- | []]].
    + destruct (Hinnings i Hin) as (Hb & Hd & Hres).
      split; [exact Hb |]. split; [exact Hd | exact Hres].
    + cbn [fields]. split; [| split].
      * apply dated_in_bounds. apply (validate_in_bounds body). exact Hv.
      * apply dated_has_date.
      * exists oid, p. split; [exact Hk | exact Hp].
Qed.

Lemma request_invariant (r : Request) (d : Database) :
  store_invariant d -> store_invariant (store_after_request r d).
Proof.
  intros Hinv. destruct r as [body new_id | | key | body now new_id | key format];
    cbn [store_after_request].
  - apply post_players_invariant. exact Hinv.
  - rewrite list_players_store. exact Hinv.
  - rewrite get_player_store. exact Hinv.
  - apply post_innings_invariant. exact Hinv.
  - rewrite export_player_store. exact Hinv.
Qed.

Lemma replay_invariant (requests : list Request) (d : Database) :
  store_invariant d -> store_invariant (replay requests d).
Proof.
  revert d. unfold replay.
  induction requests as [| r requests IH]; intros d Hinv; cbn [fold_left].
  - exact Hinv.
  - apply IH. apply request_invariant. exact Hinv.
Qed.

Lemma empty_store_invariant : store_invariant empty_store.
Proof. split; intros x []. Qed.


Lemma sum_of_bounds (f : Innings.t -> Z) (hi : Z) (l : list (Document Innings.t)) :
  (forall i, In i l -> 0 <= f (fields i) <= hi) ->
  0 <= sum_of f l <= hi * Z.of_nat (List.length l).
Proof.
  unfold sum_of. induction l as [| i l IH]; intros H;
    cbn [fold_right List.length].
  - lia.
  - pose proof (H i (or_introl eq_refl)) as Hi.
    pose proof (IH (fun j Hj => H j (or_intror Hj))) as Hl.
    rewrite Nat2Z.inj_succ. lia.
Qed.

Lemma innings_of_In (pid : string) (d : Database) (i : Document Innings.t) :
  In i (innings_of pid d) -> In i (innings d).
Proof.
  unfold innings_of, match_player_id. intros H.
  apply filter_In in H. exact (proj1 H).
Qed.

(** X12.  In every store reached by serving requests from an empty store,
    the career totals of a detail view are bounded by its innings count
    [n]: runs and balls lie in [0 .. 400 * n], fours and sixes in
    [0 .. 200 * n]. *)
Theorem served_totals_bounded (requests : list Request) (key : string)
        (detail : json) :
  result (serve (get_player key) (replay requests empty_store)) = inr detail ->
  let n := career_entry "innings_count" detail in
  0 <= n /\
  0 <= career_entry "total_runs" detail <= 400 * n /\
  0 <= career_entry "total_balls" detail <= 400 * n /\
  0 <= career_entry "total_fours" detail <= 200 * n /\
  0 <= career_entry "total_sixes" detail <= 200 * n.
Proof.
  set (d := replay requests empty_store).
  pose proof (replay_invariant requests empty_store empty_store_invariant)
    as [_ Hinnings]. fold d in Hinnings.
  intros Hd.
  destruct (get_player_cases d key)
    as [[_ Hr] | [(oid & _ & _ & Hr) | (oid & p & _ & _ & Hr)]];
    rewrite Hr in Hd; try discriminate.
  injection Hd as <-.
  set (all := innings_of key d).
  assert (Hall : forall i, In i all -> innings_in_bounds (fields i)).
  { intros i Hi. apply innings_of_In in Hi. exact (proj1 (Hinnings i Hi)). }
  change (career_entry "innings_count" (player_detail p (sort_by_date (-1) all) all))
    with (Z.of_nat (List.length all)).
  change (career_entry "total_runs" (player_detail p (sort_by_date (-1) all) all))
    with (sum_of Innings.runs all).
  change (career_entry "total_balls" (player_detail p (sort_by_date (-1) all) all))
    with (sum_of Innings.balls all).
  change (career_entry "total_fours" (player_detail p (sort_by_date (-1) all) all))
    with (sum_of Innings.fours all).
  change (career_entry "total_sixes" (player_detail p (sort_by_date (-1) all) all))
    with (sum_of Innings.sixes all).
  cbv zeta.
  split; [lia |].
  split; [apply sum_of_bounds; intros i Hi; apply (Hall i Hi) |].
  split; [apply sum_of_bounds; intros i Hi; apply (Hall i Hi) |].
  split; apply sum_of_bounds; intros i Hi; apply (Hall i Hi).
Qed.

Lemma served_totals_bounded_witness :
  0 <= career_entry "total_runs"
         (player_detail ann [ Doc sample_new_id
                                  (dated {| Innings.player_id := ann_key;
                                            Innings.runs := 120;
                                            Innings.balls := 80;
                                            Innings.fours := 10;
                                            Innings.sixes := 4;
                                            Innings.out := false;
                                            Innings.opposition := None;
                                            Innings.venue := None;
                                            Innings.date := None |} sample_time) ]
                        [ Doc sample_new_id
                              (dated {| Innings.player_id := ann_key;
                                        Innings.runs := 120;
                                        Innings.balls := 80;
                                        Innings.fours := 10;
                                        Innings.sixes := 4;
                                        Innings.out := false;
                                        Innings.opposition := None;
                                        Innings.venue := None;
                                        Innings.date := None |} sample_time) ])
  <= 400 * 1.
Proof.
  apply (served_totals_bounded
           [ PostPlayers (fields ann) ann_id;
             PostInnings
               {| Innings.body_player_id := ann_key; Innings.body_runs := 120;
                  Innings.body_balls := 80; Innings.body_fours := Some 10;
                  Innings.body_sixes := Some 4; Innings.body_out := Some false;
                  Innings.body_opposition := None; Innings.body_venue := None;
                  Innings.body_date := None |} sample_time sample_new_id ]
           ann_key).
  vm_compute. reflexivity.
Defined.

(* ===================================================================== *)
(** ** The sign of a strike rate *)
(* ===================================================================== *)














(* ===================================================================== *)
(** ** The health check *)
(* ===================================================================== *)




(** X14.  The health check reports the connection status [Connected]
    exactly when a store handle exists and listing its collections
    succeeded; it then returns the names listed and reports the database as
    connected and working.  In every other case the list of collections is
    empty.  The backend is always reported as running. *)
Theorem test_database_connected (handle : option Handle) (env : Environ) :
  let response := test_database handle env in
  dict_get "backend" response = Some (JStr "✅ Running")
  /\ (dict_get "connection_status" response = Some (JStr "Connected")
      <-> exists h names,
            handle = Some h /\ list_collection_names h = inr names)
  /\ (forall h names,
        handle = Some h -> list_collection_names h = inr names ->
        dict_get "collections" response = Some (JList (map JStr names)) /\
        dict_get "database" response = Some (JStr "✅ Connected & Working"))
  /\ (dict_get "connection_status" response <> Some (JStr "Connected") ->
      dict_get "connection_status" response = Some (JStr "Not Connected") /\
      dict_get "collections" response = Some (JList [])).
Proof.
  intros response. unfold response, test_database.
  destruct handle as [h |].
  - destruct (list_collection_names h) as [message | names] eqn:Hl.
    + split; [reflexivity |].
      split; [split; [intros H; discriminate H
                     | intros (h' & names & [= <-] & Hn); congruence] |].
      split; [intros h' names [= <-] Hn; congruence |].
      intros _. split; reflexivity.
    + split; [reflexivity |].
      split; [split; [intros _; exists h, names; split; [reflexivity | exact Hl]
                     | reflexivity] |].
      split; [intros h' names' [= <-] Hn; rewrite Hl in Hn;
              injection Hn as <-; split; reflexivity |].
      intros H. exfalso. apply H. reflexivity.
  - split; [reflexivity |].
    split; [split; [intros H; discriminate H
                   | intros (h' & names & H & _); discriminate H] |].
    split; [intros h names H; discriminate H |].
    intros _. split; reflexivity.
Qed.



(* ===================================================================== *)
(** ** The two orders *)
(* ===================================================================== *)










(* ===================================================================== *)
(** ** Per-innings strike rates *)
(* ===================================================================== *)

Lemma detail_innings_annotated (i : Document Innings.t) :
  float_entry "strike_rate" (detail_innings i) =
  Some (strike_rate (int_entry "runs" (detail_innings i))
                    (int_entry "balls" (detail_innings i))).
Proof. reflexivity. Qed.

Lemma csv_row_annotated (i : Document Innings.t) :
  float_cell 8 (csv_row i) =
  Some (strike_rate (int_cell 3 (csv_row i)) (int_cell 4 (csv_row i))).
Proof. reflexivity. Qed.

(** X17.  Every innings of a detail view carries the strike rate of its own
    runs and balls, and so does every row of a CSV export, in its last
    column, for the runs and balls of its fourth and fifth columns. *)
Theorem innings_annotated_with_own_strike_rate (d : Database) (key : string)
        (format : option string) :
  (forall detail,
     result (serve (get_player key) d) = inr detail ->
     exists listed,
       dict_get "innings" detail = Some (JList listed) /\
       Forall (fun inn =>
                 float_entry "strike_rate" inn =
                 Some (strike_rate (int_entry "runs" inn) (int_entry "balls" inn)))
              listed)
  /\ (forall r,
        result (serve (export_player key format) d) = inr r ->
        Forall (fun row =>
                  float_cell 8 row =
                  Some (strike_rate (int_cell 3 row) (int_cell 4 row)))
               (csv_body r)).
Proof.
  split.
  - intros detail Hd.
    destruct (get_player_cases d key)
      as [[_ Hr] | [(oid & _ & _ & Hr) | (oid & p & _ & _ & Hr)]];
      rewrite Hr in Hd; try discriminate.
    injection Hd as <-.
    exists (map detail_innings (sort_by_date (-1) (innings_of key d))).
    split; [reflexivity |].
    apply Forall_forall. intros inn Hin.
    apply in_map_iff in Hin. destruct Hin as (i & <- & _).
    apply detail_innings_annotated.
  - intros r Hd.
    destruct (export_player_cases d key format)
      as [[_ Hr] | [(oid & _ & _ & Hr) | (oid & p & _ & _ & Hr)]];
      rewrite Hr in Hd; try discriminate.
    injection Hd as <-. unfold export_of.
    destruct (is_json format); cbn [csv_body export_json export_csv tl];
      [constructor |].
    apply Forall_forall. intros row Hin.
    apply in_map_iff in Hin. destruct Hin as (i & <- & _).
    apply csv_row_annotated.
Qed.

Lemma innings_annotated_with_own_strike_rate_witness :
  exists listed,
    dict_get "innings"
      (player_detail ann (sort_by_date (-1) (innings_of ann_key sample_store))
                     (innings_of ann_key sample_store)) = Some (JList listed).
Proof.
  assert (Hd : result (serve (get_player ann_key) sample_store) =
               inr (player_detail ann
                      (sort_by_date (-1) (innings_of ann_key sample_store))
                      (innings_of ann_key sample_store))).
  { rewrite (get_player_found sample_store ann_key ann_id ann); reflexivity. }
  destruct (proj1 (innings_annotated_with_own_strike_rate sample_store ann_key None)
              _ Hd) as (listed & Hl & _).
  exists listed. exact Hl.
Defined.

(** X18.  [POST /innings] with a body inside its bounds and the key of an
    existing player stores the body with its defaults filled in: no fours
    and no sixes when they are left out, out when that is left out, and the
    current time when no date is given. *)
Theorem post_innings_stores_defaults (d : Database) (body : Innings.body)
        (now : datetime) (new_id oid : ObjectId) (p : Document Player.t) :
  ~ innings_out_of_bounds body ->
  ObjectId_of_str (Innings.body_player_id body) = Some oid ->
  find_one oid (player d) = Some p ->
  let r := serve (post_innings body now new_id) d in
  result r = inr (JObj [ ("_id", JStr (ObjectId_str new_id)) ]) /\
  player (store_after r) = player d /\
  innings (store_after r) =
    (innings d ++
     [ Doc new_id
           {| Innings.player_id := Innings.body_player_id body;
              Innings.runs := Innings.body_runs body;
              Innings.balls := Innings.body_balls body;
              Innings.fours := match Innings.body_fours body with
                               | Some n => n | None => 0 end;
              Innings.sixes := match Innings.body_sixes body with
                               | Some n => n | None => 0 end;
              Innings.out := match Innings.body_out body with
                             | Some o => o | None => true end;
              Innings.opposition := Innings.body_opposition body;
              Innings.venue := Innings.body_venue body;
              Innings.date := Some (match Innings.body_date body with
                                    | Some on => on | None => now end) |} ])%list.
Proof.
  intros Hin Hk Hp r.
  assert (Hc : Innings.constraints body = true).
  { destruct (Innings.constraints body) eqn:Hc; [reflexivity |].
    exfalso. apply Hin. apply constraints_out_of_bounds. exact Hc. }
  unfold r, serve, post_innings, CreateInningsRequest, Innings.validate.
  rewrite Hc.
  match goal with
  | |- context [add_innings ?payload now new_id] =>
      pose proof (add_innings_found d payload now new_id oid p Hk Hp) as Hr
  end.
  unfold serve in Hr. rewrite Hr.
  unfold result, store_after. cbn [fst snd db player innings].
  split; [reflexivity |]. split; [reflexivity |].
  unfold dated. cbn [Innings.player_id Innings.runs Innings.balls Innings.fours
                     Innings.sixes Innings.out Innings.opposition Innings.venue
                     Innings.date Innings.default].
  destruct (Innings.body_date body); reflexivity.
Qed.

Lemma post_innings_stores_defaults_witness :
  result (serve (post_innings
                   {| Innings.body_player_id := ann_key; Innings.body_runs := 0;
                      Innings.body_balls := 400; Innings.body_fours := None;
                      Innings.body_sixes := None; Innings.body_out := None;
                      Innings.body_opposition := None; Innings.body_venue := None;
                      Innings.body_date := None |}
                   sample_time sample_new_id) sample_store) =
  inr (JObj [ ("_id", JStr (ObjectId_str sample_new_id)) ]).
Proof.
  assert (Hk : ObjectId_of_str ann_key = Some ann_id) by reflexivity.
  assert (Hp : find_one ann_id (player sample_store) = Some ann) by reflexivity.
  apply (post_innings_stores_defaults sample_store
           {| Innings.body_player_id := ann_key; Innings.body_runs := 0;
              Innings.body_balls := 400; Innings.body_fours := None;
              Innings.body_sixes := None; Innings.body_out := None;
              Innings.body_opposition := None; Innings.body_venue := None;
              Innings.body_date := None |}
           sample_time sample_new_id ann_id ann).
  - unfold innings_out_of_bounds.
    cbn [Innings.body_runs Innings.body_balls Innings.body_fours
         Innings.body_sixes Innings.body_opposition Innings.body_venue].
    intros [H | [H | [H | [H | [H | [H | [H | H]]]]]]];
      try lia; destruct H as (x & Hx & _); discriminate Hx.
  - exact Hk.
  - exact Hp.
Defined.

(* ===================================================================== *)
(** ** The strike rate against the exact quotient *)
(* ===================================================================== *)

(** The number of binary digits of a positive number. *)
Lemma digits2_pos_bounds (p : positive) :
  2 ^ (Zpos (digits2_pos p) - 1) <= Zpos p < 2 ^ Zpos (digits2_pos p).
Proof.
  induction p as [p IH | p IH |]; cbn [digits2_pos].
  - rewrite Pos2Z.inj_succ.
    replace (Z.succ (Zpos (digits2_pos p)) - 1) with (Z.succ (Zpos (digits2_pos p) - 1)) by lia.
    rewrite !Z.pow_succ_r by lia. lia.
  - rewrite Pos2Z.inj_succ.
    replace (Z.succ (Zpos (digits2_pos p)) - 1) with (Z.succ (Zpos (digits2_pos p) - 1)) by lia.
    rewrite !Z.pow_succ_r by lia. lia.
  - cbn. lia.
Qed.

(** One step of the right shift halves the mantissa. *)
Lemma shr_1_half (mrs : shr_record) :
  0 <= shr_m mrs -> shr_m (shr_1 mrs) = shr_m mrs / 2.
Proof.
  destruct mrs as [m r s]. cbn [shr_m]. intros Hm.
  destruct m as [| q | q]; [reflexivity | | lia].
  destruct q as [p | p |]; cbn [shr_1 shr_m].
  - apply (Z.div_unique (Zpos p~1) 2 (Zpos p) 1); lia.
  - apply (Z.div_unique (Zpos p~0) 2 (Zpos p) 0); lia.
  - reflexivity.
Qed.

Lemma iter_shr_1 (p : positive) (mrs : shr_record) :
  0 <= shr_m mrs ->
  shr_m (iter_pos shr_1 p mrs) = shr_m mrs / 2 ^ Zpos p.
Proof.
  revert mrs. induction p as [p IH | p IH |]; intros mrs Hm; cbn [iter_pos].
  - assert (Hpow : 2 ^ Zpos p~1 = 2 * 2 ^ Zpos p * 2 ^ Zpos p).
    { rewrite <- Z.mul_assoc, <- Z.pow_add_r, <- Z.pow_succ_r by lia.
      f_equal. lia. }
    assert (H1 : 0 <= shr_m (shr_1 mrs))
      by (rewrite shr_1_half by exact Hm; apply Z.div_pos; lia).
    assert (H2 : 0 <= shr_m (iter_pos shr_1 p (shr_1 mrs))).
    { rewrite IH by exact H1.
      apply Z.div_pos; [exact H1 | apply Z.pow_pos_nonneg; lia]. }
    assert (Hp : 0 < 2 ^ Zpos p) by (apply Z.pow_pos_nonneg; lia).
    rewrite IH by exact H2. rewrite IH by exact H1.
    rewrite shr_1_half by exact Hm.
    rewrite !Z.div_div by lia. rewrite Hpow. f_equal. lia.
  - assert (Hpow : 2 ^ Zpos p~0 = 2 ^ Zpos p * 2 ^ Zpos p).
    { rewrite <- Z.pow_add_r by lia. f_equal. lia. }
    assert (H2 : 0 <= shr_m (iter_pos shr_1 p mrs)).
    { rewrite IH by exact Hm.
      apply Z.div_pos; [exact Hm | apply Z.pow_pos_nonneg; lia]. }
    assert (Hp : 0 < 2 ^ Zpos p) by (apply Z.pow_pos_nonneg; lia).
    rewrite IH by exact H2. rewrite IH by exact Hm.
    rewrite !Z.div_div by lia. rewrite Hpow. reflexivity.
  - rewrite shr_1_half by exact Hm. reflexivity.
Qed.

Lemma shr_record_of_loc_m (m : Z) (l : location) :
  shr_m (shr_record_of_loc m l) = m.
Proof. destruct l as [| []]; reflexivity. Qed.

(** The shift to the canonical exponent divides by a power of two. *)
Lemma shr_fexp_spec (m e : Z) (l : location) :
  0 <= m ->
  let n := fexp PyFloat.prec PyFloat.emax (Zdigits2 m + e) - e in
  (n <= 0 ->
   shr_m (fst (shr_fexp PyFloat.prec PyFloat.emax m e l)) = m /\
   snd (shr_fexp PyFloat.prec PyFloat.emax m e l) = e) /\
  (0 < n ->
   shr_m (fst (shr_fexp PyFloat.prec PyFloat.emax m e l)) = m / 2 ^ n /\
   snd (shr_fexp PyFloat.prec PyFloat.emax m e l) = e + n).
Proof.
  intros Hm n. unfold shr_fexp. fold n. unfold shr.
  destruct n as [| p | p] eqn:Hn; cbn [fst snd].
  - split; [intros _; split; [apply shr_record_of_loc_m | reflexivity] | lia].
  - split; [lia | intros _]. split; [| reflexivity].
    rewrite iter_shr_1 by (rewrite shr_record_of_loc_m; exact Hm).
    rewrite shr_record_of_loc_m. reflexivity.
  - split; [intros _; split; [apply shr_record_of_loc_m | reflexivity] | lia].
Qed.

Lemma fexp_normal (x : Z) :
  -1021 <= x -> fexp PyFloat.prec PyFloat.emax x = x - 53.
Proof.
  intros H. unfold fexp, emin, PyFloat.prec, PyFloat.emax. lia.
Qed.

Lemma digits_unique (p : positive) (k : Z) :
  2 ^ (k - 1) <= Zpos p < 2 ^ k -> Zpos (digits2_pos p) = k.
Proof.
  intros [Hlo Hhi]. pose proof (digits2_pos_bounds p) as [Dlo Dhi].
  set (d := Zpos (digits2_pos p)) in *.
  assert (Hd : 0 < d) by (unfold d; lia).
  assert (Hk : 0 < k).
  { destruct (Z.ltb_spec 0 k) as [H | H]; [exact H |].
    exfalso. assert (2 ^ k <= 1).
    { destruct (Z.eq_dec k 0) as [-> | Hne]; [cbn; lia |].
      rewrite Z.pow_neg_r by lia. lia. }
    lia. }
  destruct (Z.lt_trichotomy d k) as [H | [H | H]]; [| exact H |]; exfalso.
  - assert (2 ^ d <= 2 ^ (k - 1)) by (apply Z.pow_le_mono_r; lia). lia.
  - assert (2 ^ k <= 2 ^ (d - 1)) by (apply Z.pow_le_mono_r; lia). lia.
Qed.

Lemma round_nearest_even_range (m : Z) (l : location) :
  m <= round_nearest_even m l <= m + 1.
Proof.
  unfold round_nearest_even. destruct l as [| []]; try destruct (Z.even m); lia.
Qed.

(** Rounding a mantissa of at least 53 digits, in the normal range. *)
Lemma binary_round_aux_normal (s : bool) (pm : positive) (e : Z) (l : location) :
  let d := Zpos (digits2_pos pm) in
  53 <= d -> -1021 <= d + e -> d + e <= 1023 ->
  exists m3 e3,
    binary_round_aux PyFloat.prec PyFloat.emax s (Zpos pm) e l
      = S754_finite s m3 e3 /\
    2 ^ 52 <= Zpos m3 < 2 ^ 53 /\
    e + d - 53 <= e3 <= e + d - 52 /\
    Z.abs (Zpos m3 * 2 ^ (e3 - e) - Zpos pm) <= 2 ^ (d - 53).
Proof.
  intros d Hd Hlo Hhi.
  pose proof (digits2_pos_bounds pm) as [Dlo Dhi]. fold d in Dlo, Dhi.
  set (n := d - 53).
  assert (Hn : 0 <= n) by (unfold n; lia).
  assert (Hpn : 0 < 2 ^ n) by (apply Z.pow_pos_nonneg; lia).
  assert (Hsplit_lo : 2 ^ (d - 1) = 2 ^ 52 * 2 ^ n).
  { rewrite <- Z.pow_add_r by lia. f_equal. unfold n. lia. }
  assert (Hsplit_hi : 2 ^ d = 2 ^ 53 * 2 ^ n).
  { rewrite <- Z.pow_add_r by lia. f_equal. unfold n. lia. }
  (* first shift *)
  unfold binary_round_aux.
  pose proof (shr_fexp_spec (Zpos pm) e l ltac:(lia)) as H1.
  cbv zeta in H1. change (Zdigits2 (Zpos pm)) with d in H1.
  rewrite (fexp_normal (d + e) Hlo) in H1.
  replace (d + e - 53 - e) with n in H1 by (unfold n; lia).
  destruct (shr_fexp PyFloat.prec PyFloat.emax (Zpos pm) e l) as [mrs1 e1].
  cbn [fst snd] in H1.
  assert (Hm1 : shr_m mrs1 = Zpos pm / 2 ^ n /\ e1 = e + n).
  { destruct (Z.eq_dec n 0) as [Hz | Hnz].
    - destruct (proj1 H1 ltac:(lia)) as [-> ->]. rewrite Hz.
      change (2 ^ 0) with 1. rewrite Z.div_1_r. split; lia.
    - apply (proj2 H1). lia. }
  clear H1. destruct Hm1 as [Hm1 He1].
  set (m1 := shr_m mrs1) in *.
  assert (Hdiv : m1 * 2 ^ n <= Zpos pm < (m1 + 1) * 2 ^ n).
  { rewrite Hm1. pose proof (Z.div_mod (Zpos pm) (2 ^ n) ltac:(lia)) as Hdm.
    pose proof (Z.mod_pos_bound (Zpos pm) (2 ^ n) Hpn) as Hmod. nia. }
  assert (Hm1r : 2 ^ 52 <= m1 < 2 ^ 53) by nia.
  (* rounding *)
  pose proof (round_nearest_even_range m1 (loc_of_shr_record mrs1)) as Hr.
  set (m2 := round_nearest_even m1 (loc_of_shr_record mrs1)) in *.
  (* second shift *)
  pose proof (shr_fexp_spec m2 e1 loc_Exact ltac:(lia)) as H2.
  cbv zeta in H2.
  destruct m2 as [| p2 | p2] eqn:Hm2; try lia.
  change (Zdigits2 (Zpos p2)) with (Zpos (digits2_pos p2)) in H2.
  destruct (Z.eq_dec (Zpos p2) (2 ^ 53)) as [Hbig | Hsmall].
  - (* the mantissa reached 2^53 *)
    assert (Hd2 : Zpos (digits2_pos p2) = 54).
    { apply digits_unique. rewrite Hbig. change (54 - 1) with 53.
      split; [lia |]. apply Z.pow_lt_mono_r; lia. }
    rewrite Hd2 in H2.
    rewrite (fexp_normal (54 + e1)) in H2 by lia.
    replace (54 + e1 - 53 - e1) with 1 in H2 by lia.
    destruct (shr_fexp PyFloat.prec PyFloat.emax (Zpos p2) e1 loc_Exact)
      as [mrs3 e3].
    cbn [fst snd] in H2. destruct (proj2 H2 ltac:(lia)) as [Hm3 He3].
    rewrite Hbig in Hm3. change (2 ^ 53 / 2 ^ 1) with (2 ^ 52) in Hm3.
    rewrite Hm3. change (2 ^ 52) with (Zpos 4503599627370496).
    exists 4503599627370496%positive, e3.
    assert (He3le : (e3 <=? PyFloat.emax - PyFloat.prec) = true).
    { apply Z.leb_le. unfold PyFloat.emax, PyFloat.prec. lia. }
    rewrite He3le. split; [reflexivity |].
    split; [change (Zpos 4503599627370496) with (2 ^ 52);
            split; [lia | apply Z.pow_lt_mono_r; lia] |].
    split; [lia |].
    replace (e3 - e) with (1 + n) by lia.
    rewrite Z.pow_add_r by lia. change (2 ^ 1) with 2.
    assert (H52 : Zpos 4503599627370496 * 2 = 2 ^ 53) by reflexivity.
    replace (Zpos 4503599627370496 * (2 * 2 ^ n)) with (2 ^ 53 * 2 ^ n)
      by (rewrite <- H52; ring).
    fold n. rewrite <- Hbig. nia.
  - (* it stayed below 2^53 *)
    assert (Hd2 : Zpos (digits2_pos p2) = 53).
    { apply digits_unique. change (53 - 1) with 52. lia. }
    rewrite Hd2 in H2.
    rewrite (fexp_normal (53 + e1)) in H2 by lia.
    replace (53 + e1 - 53 - e1) with 0 in H2 by lia.
    destruct (shr_fexp PyFloat.prec PyFloat.emax (Zpos p2) e1 loc_Exact)
      as [mrs3 e3].
    cbn [fst snd] in H2. destruct (proj1 H2 ltac:(lia)) as [Hm3 He3].
    rewrite Hm3. exists p2, e3.
    assert (He3le : (e3 <=? PyFloat.emax - PyFloat.prec) = true).
    { apply Z.leb_le. unfold PyFloat.emax, PyFloat.prec. lia. }
    rewrite He3le. split; [reflexivity |].
    split; [lia |]. split; [lia |].
    replace (e3 - e) with n by lia. fold n. nia.
Qed.

Lemma digits_le_of_lt (p : positive) (k : Z) :
  0 <= k -> Zpos p < 2 ^ k -> Zpos (digits2_pos p) <= k.
Proof.
  intros Hk Hp. pose proof (digits2_pos_bounds p) as [Dlo _].
  set (d := Zpos (digits2_pos p)) in *.
  destruct (Z.leb_spec d k) as [H | H]; [exact H | exfalso].
  assert (2 ^ k <= 2 ^ (d - 1)) by (apply Z.pow_le_mono_r; lia). lia.
Qed.

Lemma abs_mul_le (x y X : Z) :
  0 <= y -> Z.abs x <= X -> Z.abs (x * y) <= X * y.
Proof.
  intros Hy Hx. rewrite Z.abs_mul, (Z.abs_eq y) by exact Hy.
  apply Z.mul_le_mono_nonneg_r; assumption.
Qed.

(** The quotient's error: the remainder of the division and the rounding
    of the 53- or 54-digit quotient together stay within three divisors. *)
Lemma quotient_error (v q b rem x : Z) :
  0 <= rem < b -> x = b * q + rem -> Z.abs (v - q) <= 2 ->
  Z.abs (v * b - x) <= 3 * b.
Proof.
  intros Hrem -> Hv.
  replace (v * b - (b * q + rem)) with ((v - q) * b + - rem) by ring.
  eapply Z.le_trans; [apply Z.abs_triangle |].
  pose proof (abs_mul_le (v - q) b 2 ltac:(lia) Hv) as H.
  rewrite Z.abs_opp, (Z.abs_eq rem) by lia. lia.
Qed.

(** The product's error: the error of the quotient, scaled by 100, and the
    rounding of the product together stay below a two-hundredth of the
    unit [T] of the hundredths' rounding. *)
Lemma product_error (M3 M5 R B T A1 A2 S D : Z) :
  0 < B < D -> 2 ^ 22 * D <= S ->
  1 <= A1 <= 4 -> 0 < A2 ->
  S * 2 ^ 46 = T * A1 * A2 ->
  Z.abs (M3 * A1 * B - R * S) <= 3 * B ->
  Z.abs (M5 * A2 - M3 * (100 * 2 ^ 46)) <= 2 ^ 53 ->
  200 * Z.abs (M5 * B - 100 * R * T) < T.
Proof.
  intros HB HS HA1 HA2 Hrel Herr1 Herr2.
  set (Q := 2 ^ 46) in *. set (Y := 2 ^ 53) in *.
  assert (HQ : Q = 70368744177664) by reflexivity.
  assert (HY : Y = 9007199254740992) by reflexivity.
  assert (H22 : 2 ^ 22 = 4194304) by reflexivity.
  rewrite H22 in HS. clear H22.
  set (E := M5 * B - 100 * R * T).
  assert (Hid : E * (A1 * A2)
                = (M5 * A2 - M3 * (100 * Q)) * (B * A1)
                  + (M3 * A1 * B - R * S) * (100 * Q)).
  { unfold E.
    replace ((M5 * B - 100 * R * T) * (A1 * A2))
      with (M5 * B * (A1 * A2) - 100 * R * (T * A1 * A2)) by ring.
    rewrite <- Hrel. ring. }
  assert (Hpos : 0 < A1 * A2) by (apply Z.mul_pos_pos; lia).
  assert (Hbound : Z.abs E * (A1 * A2) <= Y * (B * A1) + 3 * B * (100 * Q)).
  { rewrite <- (Z.abs_eq (A1 * A2)) at 1 by lia.
    rewrite <- Z.abs_mul, Hid.
    eapply Z.le_trans; [apply Z.abs_triangle |].
    apply Z.add_le_mono; apply abs_mul_le; try assumption.
    - apply Z.mul_nonneg_nonneg; lia.
    - lia. }
  assert (H4 : Y * (B * A1) <= Y * (B * 4)).
  { apply Z.mul_le_mono_nonneg_l; [lia |].
    apply Z.mul_le_mono_nonneg_l; lia. }
  apply (Z.mul_lt_mono_pos_r (A1 * A2)); [exact Hpos |].
  replace (T * (A1 * A2)) with (S * Q) by (rewrite Hrel; ring).
  rewrite <- Z.mul_assoc.
  set (U := Z.abs E * (A1 * A2)) in *.
  set (V := Y * (B * A1)) in *.
  subst Q Y. lia.
Qed.

(** Rounding to hundredths: half a unit from the rounding itself, and less
    than a two-hundredth of a unit from the double, give the nearest
    hundredth of the exact quotient. *)
Lemma hundredth_error (N M5 R B T : Z) :
  0 < B -> 0 < T ->
  2 * Z.abs (N * T - M5 * 100) <= T ->
  200 * Z.abs (M5 * B - 100 * R * T) < T ->
  2 * Z.abs (N * B - 10000 * R) <= B.
Proof.
  intros HB HT Hn He.
  set (x := N * T - M5 * 100) in *. set (y := M5 * B - 100 * R * T) in *.
  assert (Hz : Z.abs (N * B - 10000 * R) * T
               <= Z.abs x * B + 100 * Z.abs y).
  { rewrite <- (Z.abs_eq T) at 1 by lia. rewrite <- Z.abs_mul.
    replace ((N * B - 10000 * R) * T) with (x * B + y * 100)
      by (unfold x, y; ring).
    eapply Z.le_trans; [apply Z.abs_triangle |].
    rewrite (Z.mul_comm 100).
    apply Z.add_le_mono; apply abs_mul_le; lia. }
  assert (Hx : 2 * Z.abs x * B <= T * B)
    by (apply Z.mul_le_mono_nonneg_r; lia).
  assert (Hlt : 2 * Z.abs (N * B - 10000 * R) * T < (B + 1) * T).
  { rewrite <- Z.mul_assoc.
    set (z := Z.abs (N * B - 10000 * R) * T) in *.
    rewrite <- Z.mul_assoc in Hx.
    set (u := Z.abs x * B) in *.
    rewrite Z.mul_add_distr_r, (Z.mul_comm B T).
    set (w := T * B) in *. lia. }
  apply Z.mul_lt_mono_pos_r in Hlt; [lia | exact HT].
Qed.

(** The quotient of two positive integers below [2^32], as a double. *)
Lemma truediv_quotient (r b : positive) :
  Zpos r < 2 ^ 32 -> Zpos b < 2 ^ 32 ->
  let s := 53 + Zpos (digits2_pos b) - Zpos (digits2_pos r) in
  exists m3 e3,
    PyFloat.truediv (Zpos r) (Zpos b) = S754_finite false m3 e3 /\
    2 ^ 52 <= Zpos m3 < 2 ^ 53 /\
    0 <= e3 + s <= 2 /\
    Z.abs (Zpos m3 * 2 ^ (e3 + s) * Zpos b - Zpos r * 2 ^ s) <= 3 * Zpos b.
Proof.
  intros Hr Hb s.
  pose proof (digits2_pos_bounds r) as [R1 R2].
  pose proof (digits2_pos_bounds b) as [B1 B2].
  pose proof (digits_le_of_lt r 32 ltac:(lia) Hr) as Hd1.
  pose proof (digits_le_of_lt b 32 ltac:(lia) Hb) as Hd2.
  set (d1 := Zpos (digits2_pos r)) in *.
  set (d2 := Zpos (digits2_pos b)) in *.
  assert (Hd1pos : 1 <= d1) by (unfold d1; lia).
  assert (Hd2pos : 1 <= d2) by (unfold d2; lia).
  assert (Hs : 0 < s) by (unfold s; lia).
  unfold PyFloat.truediv. cbn [PyFloat.exact_int SFdiv xorb].
  unfold SFdiv_core_binary.
  change (Zdigits2 (Zpos r)) with d1. change (Zdigits2 (Zpos b)) with d2.
  rewrite (fexp_normal (d1 + 0 - (d2 + 0))) by lia.
  replace (Z.min (d1 + 0 - (d2 + 0) - 53) (0 - 0)) with (- s)
    by (unfold s; lia).
  replace (0 - 0 - - s) with s by lia.
  destruct s as [| ps | ps] eqn:Hseq; try lia.
  rewrite <- Hseq in *. clear Hseq ps.
  rewrite Z.shiftl_mul_pow2 by lia.
  assert (Hps : 0 < 2 ^ s) by (apply Z.pow_pos_nonneg; lia).
  pose proof (Z_div_mod (Zpos r * 2 ^ s) (Zpos b) ltac:(lia)) as Hdm.
  destruct (Z.div_eucl (Zpos r * 2 ^ s) (Zpos b)) as [q rem].
  destruct Hdm as [Hq Hrem].
  (* the quotient has 53 or 54 digits *)
  assert (Hlow : 2 ^ 52 * 2 ^ d2 <= Zpos r * 2 ^ s).
  { replace (2 ^ 52 * 2 ^ d2) with (2 ^ (d1 - 1) * 2 ^ s).
    - apply Z.mul_le_mono_nonneg_r; lia.
    - rewrite <- !Z.pow_add_r by lia. f_equal. unfold s. lia. }
  assert (Hupp : Zpos r * 2 ^ s < 2 ^ 54 * 2 ^ (d2 - 1)).
  { replace (2 ^ 54 * 2 ^ (d2 - 1)) with (2 ^ d1 * 2 ^ s).
    - apply Z.mul_lt_mono_pos_r; lia.
    - rewrite <- !Z.pow_add_r by lia. f_equal. unfold s. lia. }
  assert (Hq52 : 2 ^ 52 <= q).
  { assert (2 ^ 52 * Zpos b < (q + 1) * Zpos b) by nia. nia. }
  assert (Hq54 : q < 2 ^ 54).
  { assert (q * Zpos b < 2 ^ 54 * Zpos b) by nia. nia. }
  destruct q as [| pq | pq]; try lia.
  set (dq := Zpos (digits2_pos pq)).
  assert (Hdq : dq = 53 \/ dq = 54).
  { destruct (Z.ltb_spec (Zpos pq) (2 ^ 53)) as [H | H].
    - left. apply digits_unique. change (53 - 1) with 52. lia.
    - right. apply digits_unique. change (54 - 1) with 53. lia. }
  destruct (binary_round_aux_normal false pq (- s)
              (new_location (Zpos b) rem) ltac:(fold dq; lia)
              ltac:(fold dq; unfold s; lia) ltac:(fold dq; unfold s; lia))
    as (m3 & e3 & Hres & Hm3 & He3 & Herr).
  fold dq in He3, Herr.
  exists m3, e3. split; [exact Hres |]. split; [exact Hm3 |].
  split; [lia |].
  replace (e3 - - s) with (e3 + s) in Herr by lia.
  assert (Hpow : 2 ^ (dq - 53) <= 2).
  { destruct Hdq as [-> | ->]; cbn; lia. }
  apply (quotient_error _ (Zpos pq) _ rem); [exact Hrem | exact Hq | lia].
Qed.

(** A double with a 53-digit mantissa times the float [100.0]. *)
Lemma mul_hundred (m3 : positive) (e3 : Z) :
  2 ^ 52 <= Zpos m3 < 2 ^ 53 -> -200 <= e3 <= 200 ->
  exists m5 e5,
    PyFloat.mul (S754_finite false m3 e3) (PyFloat.of_int 100)
      = S754_finite false m5 e5 /\
    2 ^ 52 <= Zpos m5 < 2 ^ 53 /\
    52 <= e5 - (e3 - 46) <= 54 /\
    Z.abs (Zpos m5 * 2 ^ (e5 - (e3 - 46)) - Zpos m3 * (100 * 2 ^ 46)) <= 2 ^ 53.
Proof.
  intros Hm3 He3.
  assert (H100 : PyFloat.of_int 100 = S754_finite false 7036874417766400 (-46))
    by (vm_compute; reflexivity).
  assert (HM : Zpos 7036874417766400 = 100 * 2 ^ 46) by reflexivity.
  rewrite H100. unfold PyFloat.mul. cbn [SFmul xorb].
  set (pm := (m3 * 7036874417766400)%positive).
  assert (Hpm : Zpos pm = Zpos m3 * (100 * 2 ^ 46)).
  { unfold pm. rewrite Pos2Z.inj_mul, HM. reflexivity. }
  assert (H104 : 2 ^ 104 <= Zpos pm < 2 ^ 106).
  { rewrite Hpm.
    change (2 ^ 104) with (2 ^ 52 * 2 ^ 52).
    change (2 ^ 106) with (2 ^ 53 * 2 ^ 53).
    assert (2 ^ 52 <= 100 * 2 ^ 46 < 2 ^ 53) by (cbn; lia).
    set (K := 100 * 2 ^ 46) in *. set (A := 2 ^ 52) in *. set (B := 2 ^ 53) in *.
    assert (0 < A) by (unfold A; cbn; lia). nia. }
  set (d := Zpos (digits2_pos pm)).
  assert (Hd : d = 105 \/ d = 106).
  { destruct (Z.ltb_spec (Zpos pm) (2 ^ 105)) as [H | H].
    - left. apply digits_unique. change (105 - 1) with 104. lia.
    - right. apply digits_unique. change (106 - 1) with 105. lia. }
  destruct (binary_round_aux_normal false pm (e3 + -46) loc_Exact
              ltac:(fold d; lia) ltac:(fold d; lia) ltac:(fold d; lia))
    as (m5 & e5 & Hres & Hm5 & He5 & Herr).
  fold d in He5, Herr.
  exists m5, e5. split; [exact Hres |]. split; [exact Hm5 |].
  replace (e5 - (e3 + -46)) with (e5 - (e3 - 46)) in Herr by lia.
  split; [lia |].
  rewrite <- Hpm.
  assert (Hpow : 2 ^ (d - 53) <= 2 ^ 53).
  { apply Z.pow_le_mono_r; lia. }
  lia.
Qed.

Lemma signed_hundredths_false (n : Z) :
  signed_hundredths false n = PyFloat.hundredths n.
Proof. destruct n; reflexivity. Qed.

Lemma pow2_split (a b : Z) : 0 <= a -> 0 <= b -> 2 ^ (a + b) = 2 ^ a * 2 ^ b.
Proof. intros. apply Z.pow_add_r; assumption. Qed.

(** X19.  For runs and balls in the range of a 32-bit integer
    ([0 <= runs < 2^31], [0 < balls < 2^31]) the strike rate is the double
    written with the digits [n], two of them fractional, for an integer
    [n] nearest to the exact quotient [10000 * runs / balls]: the value
    returned is [100 * runs / balls] to the nearest hundredth, the error
    of the floating-point division and multiplication never moving it to
    another hundredth (on an exact tie it is one of the two nearest). *)
Theorem strike_rate_nearest_hundredth (runs balls : Z) :
  0 <= runs < 2 ^ 31 -> 0 < balls < 2 ^ 31 ->
  exists n,
    strike_rate runs balls = PyFloat.hundredths n /\
    2 * Z.abs (n * balls - 10000 * runs) <= balls.
Proof.
  intros [Hr0 Hr] [Hb0 Hb].
  unfold strike_rate. destruct (Z.leb_spec balls 0) as [H | _]; [lia |].
  destruct balls as [| b | b]; try lia.
  destruct runs as [| r | r]; try lia.
  { exists 0. split; [reflexivity | lia]. }
  assert (Hr32 : Zpos r < 2 ^ 32) by (change (2 ^ 32) with (2 * 2 ^ 31); lia).
  assert (Hb32 : Zpos b < 2 ^ 32) by (change (2 ^ 32) with (2 * 2 ^ 31); lia).
  pose proof (digits2_pos_bounds r) as [R1 R2].
  pose proof (digits2_pos_bounds b) as [B1 B2].
  pose proof (digits_le_of_lt r 31 ltac:(lia) Hr) as Hd1.
  pose proof (digits_le_of_lt b 31 ltac:(lia) Hb) as Hd2.
  destruct (truediv_quotient r b Hr32 Hb32) as (m3 & e3 & Hq & Hm3 & Hk1 & Herr1).
  cbv zeta in Hk1, Herr1.
  set (d1 := Zpos (digits2_pos r)) in *.
  set (d2 := Zpos (digits2_pos b)) in *.
  assert (Hd1pos : 1 <= d1) by (unfold d1; lia).
  assert (Hd2pos : 1 <= d2) by (unfold d2; lia).
  set (s := 53 + d2 - d1) in *.
  destruct (mul_hundred m3 e3 Hm3 ltac:(unfold s in Hk1; lia))
    as (m5 & e5 & Hx & Hm5 & Hk2 & Herr2).
  rewrite Hq, Hx. cbn [PyFloat.round].
  fold (signed_hundredths false (PyFloat.scaled_digits m5 e5 2)).
  rewrite signed_hundredths_false.
  exists (PyFloat.scaled_digits m5 e5 2). split; [reflexivity |].
  (* the exponent of the product is negative *)
  set (k1 := e3 + s) in *. set (k2 := e5 - (e3 - 46)) in *.
  set (P := 46 + s - k1 - k2).
  assert (He5 : e5 = - P) by (unfold P, k1, k2; lia).
  assert (HP : 0 < P) by (unfold P, s; lia).
  destruct e5 as [| p5 | p5]; try lia.
  unfold PyFloat.scaled_digits. change (10 ^ Z.of_nat 2) with 100.
  assert (HPp : Zpos p5 = P) by lia. rewrite HPp.
  pose proof (div_half_even_nearest (Zpos m5 * 100) (2 ^ P)
                ltac:(apply Z.pow_pos_nonneg; lia)) as [Hnear _].
  set (N := PyFloat.div_half_even (Zpos m5 * 100) (2 ^ P)) in *.
  (* powers of two *)
  set (T := 2 ^ P) in *. set (A1 := 2 ^ k1) in *. set (A2 := 2 ^ k2) in *.
  set (S := 2 ^ s) in *.
  assert (HT : 0 < T) by (apply Z.pow_pos_nonneg; lia).
  assert (HA1 : 1 <= A1 <= 4).
  { unfold A1. split; [apply (Z.pow_le_mono_r 2 0 k1); lia |].
    apply (Z.pow_le_mono_r 2 k1 2); lia. }
  assert (HA2 : 0 < A2) by (apply Z.pow_pos_nonneg; lia).
  assert (Hrel : S * 2 ^ 46 = T * A1 * A2).
  { unfold S, T, A1, A2. rewrite <- !pow2_split by lia. f_equal.
    unfold P. lia. }
  assert (HS : 2 ^ 22 * 2 ^ d2 <= S).
  { unfold S. rewrite <- pow2_split by lia.
    apply Z.pow_le_mono_r; [lia |]. unfold s. lia. }
  (* the two roundings, composed *)
  apply (hundredth_error N (Zpos m5) (Zpos r) (Zpos b) T);
    [lia | exact HT | exact Hnear |].
  apply (product_error (Zpos m3) (Zpos m5) (Zpos r) (Zpos b) T A1 A2 S
           (2 ^ d2)); try assumption.
  split; [lia | exact B2].
Qed.

Lemma strike_rate_nearest_hundredth_witness :
  exists n,
    strike_rate 23 160 = PyFloat.hundredths n /\
    2 * Z.abs (n * 160 - 10000 * 23) <= 160.
Proof.
  apply (strike_rate_nearest_hundredth 23 160); cbn; lia.
Defined.
